(** * jscriptlogger/client: the reliable request/response client

    A shallow embedding of [src/Client.ts] (class [Client]) and of
    [src/LoggerNetwork.ts] (class [LoggerNetwork], both revisions kept in
    the file), followed by the properties of the retry/send engine, the
    dispatcher and the connection manager.

    Conventions of the embedding.
    - A [DateTime] is its [toMillis()] value, an integer number of
      milliseconds.  A handler runs to completion without being
      interrupted, so every [DateTime.now()] read of one handler run is
      modelled by the single instant [now] passed to it.
    - A [Long] built with [unsigned = true] is its unsigned 64-bit value.
    - The private fields of the class are the fields of the record
      [Client]; a method is a function from the state before the call to
      the state after it.
    - Every call the client makes on a collaborator (the WebSocket
      constructor and [send], the logger, the [Map] of pending requests,
      the resolver of a promise) is appended, in program order, to the
      field [effects].
    - The schema types ([Request], [Result], [Error]) are not part of the
      client: they are parameters. *)

From Stdlib Require Import ZArith NArith List String Ascii Bool Lia.
From Stdlib Require Import Strings.Byte Numbers.DecimalString.
From Stdlib Require Import Numbers.DecimalN.
Import ListNotations.

Set Implicit Arguments.

Local Open Scope Z_scope.

(** ** Platform values *)

(** A JavaScript [number]; the client only stores or compares them. *)
Definition number := Z.

Definition Uint8Array := list byte.

(** The values an event payload of type [unknown] can take, as far as the
    client can tell them apart ([data instanceof ArrayBuffer]). *)
Inductive unknown : Type :=
| ArrayBuffer (bytes : Uint8Array)
| NotArrayBuffer (description : string).

(** [Long], unsigned. *)
Definition Long := N.

(** [Long.prototype.toString()] in radix 10: no sign, no leading zero. *)
Definition Long_toString (value : Long) : string :=
  NilZero.string_of_uint (N.to_uint value).

(** [bytes[i]] of a JavaScript array inside a bit operation: an index
    out of range reads [undefined], which [|] and [<<] treat as 0. *)
Definition byteAt (bytes : list byte) (i : nat) : N :=
  Byte.to_N (nth i bytes x00).

(** [Long.fromBytesLE(bytes, true)]. *)
Definition Long_fromBytesLE (bytes : list byte) : Long :=
  let low :=
    N.lor (N.lor (N.lor (byteAt bytes 0) (N.shiftl (byteAt bytes 1) 8))
                 (N.shiftl (byteAt bytes 2) 16))
          (N.shiftl (byteAt bytes 3) 24) in
  let high :=
    N.lor (N.lor (N.lor (byteAt bytes 4) (N.shiftl (byteAt bytes 5) 8))
                 (N.shiftl (byteAt bytes 6) 16))
          (N.shiftl (byteAt bytes 7) 24) in
  N.lor (N.shiftl high 32) low.

(** [DateTime], as milliseconds since the epoch. *)
Definition DateTime := Z.

(** [expirationDifference = { seconds: 10 }], through [DateTime.plus]. *)
Definition expirationDifference : Z := 10 * 1000.

Definition DateTime_plus (d : DateTime) (milliseconds : Z) : DateTime :=
  d + milliseconds.

(** ** Interfaces of [Client.ts] *)

Record ICloseEvent : Type := {
  code : number;
  reason : string;
  wasClean : bool
}.

(** The fields of [IWebSocket] the client reads or writes, and the event
    types it has subscribed to. *)
Record IWebSocket : Type := {
  readyState : number;
  binaryType : string;
  listeners : list string
}.

Record IWebSocketConstructor : Type := {
  CONNECTING : number;
  OPEN : number;
  CLOSING : number;
  CLOSED : number;
  construct : string -> IWebSocket
}.

Record IPendingSentInformation : Type := {
  date : DateTime;
  expiresAt : DateTime
}.

Definition isPendingSentInformationExpired
    (now : DateTime) (input : IPendingSentInformation) : bool :=
  now >=? expiresAt input.

(** JavaScript [Map<string, V>]: insertion-ordered, keys unique. *)
Module JsMap.
Section Ops.
Variable V : Type.

Definition t := list (string * V).

Fixpoint get (key : string) (m : t) : option V :=
  match m with
  | [] => None
  | (k, v) :: rest => if String.eqb key k then Some v else get key rest
  end.

(** [set] keeps the position of a key that is already present and
    appends a new key at the end. *)
Fixpoint set (key : string) (value : V) (m : t) : t :=
  match m with
  | [] => [(key, value)]
  | (k, v) :: rest =>
      if String.eqb key k then (k, value) :: rest
      else (k, v) :: set key value rest
  end.

Fixpoint delete (key : string) (m : t) : t :=
  match m with
  | [] => []
  | (k, v) :: rest =>
      if String.eqb key k then delete key rest
      else (k, v) :: delete key rest
  end.

Definition values (m : t) : list V := map snd m.
Definition keys (m : t) : list string := map fst m.
End Ops.
End JsMap.

Section ClientModel.

(** The application schema: request payloads and the two outcomes. *)
Variables Request Result Error : Type.

(** What a resolver is called with: [Result | Error]. *)
Inductive Settled : Type :=
| SettledResult (result : Result)
| SettledError (error : Error).

(** [IPending]; [resolve] is the handle of the promise whose [resolve]
    callback the entry captured. *)
Record IPending : Type := {
  requestId : Long;
  acknowledged : bool;
  request : Request;
  maxRetryCount : number;
  retries : list IPendingSentInformation;
  sent : option IPendingSentInformation;
  resolve : nat
}.

(** The value handed to [messageRequest(...)] before encoding. *)
Record messageRequest : Type := {
  mrRequestId : string;
  mrRequest : Request;
  mrSessionId : string
}.

(** The decoded server messages, by [_name]. *)
Inductive ServerMessage : Type :=
| acknowledgeMessage (messageId : string)
| messageProtocolError (detail : string)
| messageResultError (requestId : string) (error : Error)
| messageResultSuccess (requestId : string) (result : Result)
| unrecognizedMessage (_name : string).

(** The [Codec] instance with the two traits fixed. *)
Record Codec : Type := {
  encode : messageRequest -> Uint8Array;
  decode : Uint8Array -> option ServerMessage
}.

Record Session : Type := { id : Long }.

(** Arguments of a [logger.error] call. *)
Inductive LogArg : Type :=
| ArgString (s : string)
| ArgBytes (b : Uint8Array)
| ArgCloseEvent (e : ICloseEvent)
| ArgPending (p : IPending)
| ArgMessage (m : ServerMessage)
| ArgUnknown (u : unknown).

Inductive Effect : Type :=
| WebSocketNew (url : string)
| WebSocketSend (data : Uint8Array)
| LoggerError (format : string) (args : list LogArg)
| PendingSet (key : string)
| PendingDelete (key : string)
| Resolve (resolver : nat) (value : Settled).

(** The private fields of [Client].  [getRandomValues n] is the [n]-th
    answer of the random source; [randomDraws] counts the answers
    consumed and [promises] the promises created by [sendMessage]. *)
Record Client : Type := {
  _WebSocket : IWebSocketConstructor;
  _url : string;
  _getRandomValues : nat -> list byte;
  _codec : Codec;
  pending : JsMap.t IPending;
  session : option Session;
  connection : option IWebSocket;
  randomDraws : nat;
  promises : nat;
  effects : list Effect
}.

Record IClientOptions : Type := {
  url : string;
  WebSocket : IWebSocketConstructor;
  getRandomValues : nat -> list byte;
  codec : Codec
}.

(** [constructor]. *)
Definition newClient (options : IClientOptions) : Client :=
  {| _WebSocket := WebSocket options;
     _url := url options;
     _getRandomValues := getRandomValues options;
     _codec := codec options;
     pending := [];
     session := None;
     connection := None;
     randomDraws := 0;
     promises := 0;
     effects := [] |}.

(** Field updates. *)
Definition withPending (m : JsMap.t IPending) (c : Client) : Client :=
  {| _WebSocket := _WebSocket c; _url := _url c;
     _getRandomValues := _getRandomValues c; _codec := _codec c;
     pending := m; session := session c; connection := connection c;
     randomDraws := randomDraws c; promises := promises c;
     effects := effects c |}.

Definition withSession (s : option Session) (c : Client) : Client :=
  {| _WebSocket := _WebSocket c; _url := _url c;
     _getRandomValues := _getRandomValues c; _codec := _codec c;
     pending := pending c; session := s; connection := connection c;
     randomDraws := randomDraws c; promises := promises c;
     effects := effects c |}.

Definition withConnection (w : option IWebSocket) (c : Client) : Client :=
  {| _WebSocket := _WebSocket c; _url := _url c;
     _getRandomValues := _getRandomValues c; _codec := _codec c;
     pending := pending c; session := session c; connection := w;
     randomDraws := randomDraws c; promises := promises c;
     effects := effects c |}.

Definition withRandomDraws (n : nat) (c : Client) : Client :=
  {| _WebSocket := _WebSocket c; _url := _url c;
     _getRandomValues := _getRandomValues c; _codec := _codec c;
     pending := pending c; session := session c;
     connection := connection c;
     randomDraws := n; promises := promises c;
     effects := effects c |}.

Definition withPromises (n : nat) (c : Client) : Client :=
  {| _WebSocket := _WebSocket c; _url := _url c;
     _getRandomValues := _getRandomValues c; _codec := _codec c;
     pending := pending c; session := session c;
     connection := connection c;
     randomDraws := randomDraws c; promises := n;
     effects := effects c |}.

(** Appending to the trace of effects. *)
Definition emitAll (es : list Effect) (c : Client) : Client :=
  {| _WebSocket := _WebSocket c; _url := _url c;
     _getRandomValues := _getRandomValues c; _codec := _codec c;
     pending := pending c; session := session c;
     connection := connection c;
     randomDraws := randomDraws c; promises := promises c;
     effects := effects c ++ es |}.

Definition emit (e : Effect) (c : Client) : Client := emitAll [e] c.

Definition withSent (s : option IPendingSentInformation) (p : IPending)
    : IPending :=
  {| requestId := requestId p; acknowledged := acknowledged p;
     request := request p; maxRetryCount := maxRetryCount p;
     retries := retries p; sent := s; resolve := resolve p |}.

Definition withRetries (r : list IPendingSentInformation) (p : IPending)
    : IPending :=
  {| requestId := requestId p; acknowledged := acknowledged p;
     request := request p; maxRetryCount := maxRetryCount p;
     retries := r; sent := sent p; resolve := resolve p |}.

Definition withMaxRetryCount (n : number) (p : IPending) : IPending :=
  {| requestId := requestId p; acknowledged := acknowledged p;
     request := request p; maxRetryCount := n;
     retries := retries p; sent := sent p; resolve := resolve p |}.

Definition withAcknowledged (a : bool) (p : IPending) : IPending :=
  {| requestId := requestId p; acknowledged := a;
     request := request p; maxRetryCount := maxRetryCount p;
     retries := retries p; sent := sent p; resolve := resolve p |}.

(** ** Methods of [Client] *)

(** [#randomLong()]: one answer of the random source, read as a
    little-endian unsigned 64-bit integer. *)
Definition randomLong (c : Client) : Long * Client :=
  (Long_fromBytesLE (_getRandomValues c (randomDraws c)),
   withRandomDraws (S (randomDraws c)) c).

(** [#isConnected()]. *)
Definition isConnected (c : Client) : bool :=
  match connection c with
  | None => false
  | Some ws => readyState ws =? OPEN (_WebSocket c)
  end.

(** The instance [#connect] stores: binary mode set, four listeners
    added. *)
Definition subscribed (ws : IWebSocket) : IWebSocket :=
  {| readyState := readyState ws; binaryType := "arraybuffer";
     listeners := listeners ws ++ ["close"; "error"; "open"; "message"]
  |}%string.

(** [#connect()]. *)
Definition connect (c : Client) : Client :=
  match connection c with
  | Some _ => c
  | None =>
      let ws := subscribed (construct (_WebSocket c) (_url c)) in
      withConnection (Some ws) (emit (WebSocketNew (_url c)) c)
  end.

(** [#send(value)]. *)
Definition send (value : Uint8Array) (c : Client) : bool * Client :=
  match connection c with
  | None => (false, c)
  | Some ws =>
      if negb (readyState ws =? OPEN (_WebSocket c)) then (false, c)
      else (true, emit (WebSocketSend value) c)
  end.

(** The session guard at the top of [#sendMessageRequest]: the session
    in use after it, and the state after it. *)
Definition ensureSession (c : Client) : Session * Client :=
  match session c with
  | Some s => (s, c)
  | None =>
      let (fresh, c1) := randomLong c in
      ({| id := fresh |}, withSession (Some {| id := fresh |}) c1)
  end.

(** [pending.retries[pending.retries.length - 1]]. *)
Definition lastRetry (p : IPending) : option IPendingSentInformation :=
  match retries p with
  | [] => None
  | _ :: _ => nth_error (retries p) (List.length (retries p) - 1)%nat
  end.

(** [#sendMessageRequest(pending)].  The entry is an object shared with
    the map: the function returns the entry as the call leaves it, and
    the caller keeps it in the slot it was taken from. *)
Definition sendMessageRequest (now : DateTime) (c : Client) (p : IPending)
    : Client * IPending :=
  if negb (isConnected c) then (connect c, p)
  else
    let (s, c1) := ensureSession c in
    let isExpired :=
      match sent p with
      | Some information => now >=? expiresAt information
      | None => false
      end in
    let encoded :=
      encode (_codec c1)
        {| mrRequestId := Long_toString (requestId p);
           mrRequest := request p;
           mrSessionId := Long_toString (id s) |} in
    if isExpired then
      let blocked :=
        match lastRetry p with
        | Some r => negb (isPendingSentInformationExpired now r)
        | None => false
        end in
      if blocked then (c1, p)
      else
        let (ok, c2) := send encoded c1 in
        if ok then
          (c2,
           withRetries
             (retries p ++
              [{| date := now;
                  expiresAt := DateTime_plus now expirationDifference |}])
             p)
        else (c2, p)
    else
      match sent p with
      | Some _ => (c1, p)
      | None =>
          let (isSent, c2) := send encoded c1 in
          if isSent then
            (c2,
             withSent
               (Some {| date := now;
                        expiresAt :=
                          DateTime_plus now expirationDifference |})
               p)
          else (c2, p)
      end.

(** The loop of [#checkPendingRequests()] over [this.#pending.values()],
    in insertion order; each entry is updated in its slot. *)
Fixpoint driveEntries (now : DateTime) (c : Client)
    (entries : JsMap.t IPending) : Client * JsMap.t IPending :=
  match entries with
  | [] => (c, [])
  | (key, p) :: rest =>
      let (c1, p1) := sendMessageRequest now c p in
      let (c2, rest1) := driveEntries now c1 rest in
      (c2, (key, p1) :: rest1)
  end.

(** [#checkPendingRequests()]. *)
Definition checkPendingRequests (now : DateTime) (c : Client) : Client :=
  let (c1, entries) := driveEntries now c (pending c) in
  withPending entries c1.

(** [sendMessage(request, { maxRetryCount = 4 })]: the promise handle
    returned to the caller, and the state after the executor ran.
    [None] is an omitted option. *)
Definition sendMessage (now : DateTime) (req : Request)
    (maxRetryCountOption : option number) (c : Client) : nat * Client :=
  let maxRetry :=
    match maxRetryCountOption with Some n => n | None => 4 end in
  let handle := promises c in
  let c0 := withPromises (S handle) c in
  let (rid, c1) := randomLong c0 in
  let entry :=
    {| requestId := rid; request := req; maxRetryCount := maxRetry;
       retries := []; resolve := handle; sent := None;
       acknowledged := false |} in
  let key := Long_toString rid in
  let c2 := emit (PendingSet key)
              (withPending (JsMap.set key entry (pending c1)) c1) in
  let (c3, entry1) := sendMessageRequest now c2 entry in
  (handle, withPending (JsMap.set key entry1 (pending c3)) c3).

(** The two halves of the executor in [sendMessage], named: the entry
    it builds, and the state once the entry is in the map, before the
    first pass. *)
Definition newEntry (req : Request) (maxRetryCountOption : option number)
    (c : Client) : IPending :=
  {| requestId := Long_fromBytesLE (_getRandomValues c (randomDraws c));
     request := req;
     maxRetryCount :=
       match maxRetryCountOption with Some n => n | None => 4 end;
     retries := []; resolve := promises c; sent := None;
     acknowledged := false |}.

Definition registered (req : Request) (maxRetryCountOption : option number)
    (c : Client) : Client :=
  let entry := newEntry req maxRetryCountOption c in
  emit (PendingSet (Long_toString (requestId entry)))
    (withPending
       (JsMap.set (Long_toString (requestId entry)) entry (pending c))
       (withRandomDraws (S (randomDraws c))
          (withPromises (S (promises c)) c))).

(** [onError(...args)]. *)
Definition onError (args : list unknown) (c : Client) : Client :=
  emit (LoggerError "received error event:" (map ArgUnknown args)) c.

(** [onOpen()]. *)
Definition onOpen (now : DateTime) (c : Client) : Client :=
  checkPendingRequests now c.

(** [onClose(e)]. *)
Definition onClose (e : ICloseEvent) (c : Client) : Client :=
  let c1 := withConnection None c in
  let c2 := emit (LoggerError "received close event: %o"
                    [ArgCloseEvent e]) c1 in
  connect c2.

(** [onMessage({ data })]. *)
Definition onMessage (data : unknown) (c : Client) : Client :=
  match data with
  | NotArrayBuffer _ => c
  | ArrayBuffer bytes =>
      match decode (_codec c) bytes with
      | None => emit (LoggerError "failed to decode: %o" [ArgBytes bytes]) c
      | Some received =>
          match received with
          | acknowledgeMessage messageId =>
              match JsMap.get messageId (pending c) with
              | None =>
                  emit (LoggerError
                          "failed to find request to mark it as acknowledged: %s"
                          [ArgString messageId]) c
              | Some p =>
                  if acknowledged p then
                    emit (LoggerError
                            "tried to acknowledge an already acknowledged request: %o"
                            [ArgPending p]) c
                  else
                    withPending
                      (JsMap.set messageId (withAcknowledged true p)
                         (pending c)) c
              end
          | messageProtocolError _ =>
              emit (LoggerError "received protocol error: %o"
                      [ArgMessage received]) c
          | messageResultError rid err =>
              match JsMap.get rid (pending c) with
              | None =>
                  emit (LoggerError "failed to find request: %s"
                          [ArgString rid]) c
              | Some p =>
                  let c1 := emit (PendingDelete rid)
                              (withPending (JsMap.delete rid (pending c)) c) in
                  emit (Resolve (resolve p) (SettledError err)) c1
              end
          | messageResultSuccess rid res =>
              match JsMap.get rid (pending c) with
              | None =>
                  emit (LoggerError "failed to find request: %s"
                          [ArgString rid]) c
              | Some p =>
                  let c1 := emit (PendingDelete rid)
                              (withPending (JsMap.delete rid (pending c)) c) in
                  emit (Resolve (resolve p) (SettledResult res)) c1
              end
          | unrecognizedMessage _ =>
              emit (LoggerError "failed to process message: %o"
                      [ArgMessage received]) c
          end
      end
  end.

(** ** The environment of a client

    What can happen to a client between two handler runs: a caller
    invokes [sendMessage], the transport changes the [readyState] of
    the instance the client holds, or the transport fires one of the
    four events the client subscribed to. *)
Inductive Input : Type :=
| CallSendMessage (now : DateTime) (req : Request)
    (maxRetryCountOption : option number)
| SetReadyState (state : number)
| FireOpen (now : DateTime)
| FireClose (e : ICloseEvent)
| FireError (args : list unknown)
| FireMessage (data : unknown).

Definition setReadyState (state : number) (c : Client) : Client :=
  match connection c with
  | None => c
  | Some ws =>
      withConnection
        (Some {| readyState := state; binaryType := binaryType ws;
                 listeners := listeners ws |}) c
  end.

Definition step (c : Client) (i : Input) : Client :=
  match i with
  | CallSendMessage now req option => snd (sendMessage now req option c)
  | SetReadyState state => setReadyState state c
  | FireOpen now => onOpen now c
  | FireClose e => onClose e c
  | FireError args => onError args c
  | FireMessage data => onMessage data c
  end.

Definition run (c : Client) (inputs : list Input) : Client :=
  fold_left step inputs c.

(** ** Observations on the trace of effects *)

Definition isNew (e : Effect) : bool :=
  match e with WebSocketNew _ => true | _ => false end.

(** The frames written with [connection.send], oldest first. *)
Fixpoint sentFrames (trace : list Effect) : list Uint8Array :=
  match trace with
  | [] => []
  | WebSocketSend data :: rest => data :: sentFrames rest
  | _ :: rest => sentFrames rest
  end.

(** The resolver calls, oldest first. *)
Fixpoint resolutions (trace : list Effect) : list (nat * Settled) :=
  match trace with
  | [] => []
  | Resolve resolver value :: rest => (resolver, value) :: resolutions rest
  | _ :: rest => resolutions rest
  end.

(** The frame [#sendMessageRequest] builds for an entry under a session. *)
Definition frameOf (c : Client) (s : Session) (p : IPending) : Uint8Array :=
  encode (_codec c)
    {| mrRequestId := Long_toString (requestId p);
       mrRequest := request p;
       mrSessionId := Long_toString (id s) |}.

(** The retry gate of [#sendMessageRequest]: the entry was never sent,
    or its initial send has expired and so has its latest retry, if
    there is one. *)
Definition due (now : DateTime) (p : IPending) : bool :=
  match sent p with
  | None => true
  | Some information =>
      (now >=? expiresAt information) &&
      match lastRetry p with
      | None => true
      | Some r => now >=? expiresAt r
      end
  end.

(** What a pass that wrote the frame records in the entry: the initial
    send if there was none, one more retry otherwise. *)
Definition recordWrite (now : DateTime) (p : IPending) : IPending :=
  let attempt :=
    {| date := now; expiresAt := DateTime_plus now expirationDifference |} in
  match sent p with
  | None => withSent (Some attempt) p
  | Some _ => withRetries (retries p ++ [attempt]) p
  end.

(** The entry after a pass on an open transport. *)
Definition drive (now : DateTime) (p : IPending) : IPending :=
  if due now p then recordWrite now p else p.

(** The registry after a loop of passes on an open transport, and the
    frames that loop writes under session [s]. *)
Definition drivenEntries (now : DateTime) (m : JsMap.t IPending)
    : JsMap.t IPending :=
  map (fun kv => (fst kv, drive now (snd kv))) m.

Definition dueFrames (now : DateTime) (c : Client) (s : Session)
    (m : JsMap.t IPending)
    : list Uint8Array :=
  map (frameOf c s) (filter (due now) (JsMap.values m)).

(** The request id an inbound message refers to, and the outcome it
    carries. *)
Definition correlationId (m : ServerMessage) : option string :=
  match m with
  | acknowledgeMessage messageId => Some messageId
  | messageResultError rid _ => Some rid
  | messageResultSuccess rid _ => Some rid
  | messageProtocolError _ => None
  | unrecognizedMessage _ => None
  end.

Definition outcome (m : ServerMessage) : option (string * Settled) :=
  match m with
  | messageResultError rid err => Some (rid, SettledError err)
  | messageResultSuccess rid res => Some (rid, SettledResult res)
  | _ => None
  end.

(** The resolvers held by the registry, in insertion order. *)
Definition resolversOf (m : JsMap.t IPending) : list nat :=
  map (fun kv => resolve (snd kv)) m.

(** The resolvers called so far, oldest first. *)
Definition resolved (c : Client) : list nat :=
  map fst (resolutions (effects c)).

(** Resolvers are single-use: the registry holds each resolver once, no
    resolver was called twice, a resolver still in the registry was never
    called, and every resolver in sight belongs to a promise already
    created. *)
Definition singleUse (c : Client) : Prop :=
  NoDup (resolversOf (pending c))
  /\ NoDup (resolved c)
  /\ (forall r, In r (resolversOf (pending c)) ->
        (r < promises c)%nat /\ ~ In r (resolved c))
  /\ (forall r, In r (resolved c) -> (r < promises c)%nat).

Definition countNew (trace : list Effect) : nat :=
  List.length (filter isNew trace).

(** The number of transport instances the client holds. *)
Definition held (c : Client) : nat :=
  match connection c with Some _ => 1%nat | None => 0%nat end.

Definition isFireClose (i : Input) : bool :=
  match i with FireClose _ => true | _ => false end.

(** An entry with its [maxRetryCount] blanked, and a state with every
    entry blanked: what two runs that differ only in [maxRetryCount]
    can be compared on. *)
Definition withoutMaxRetryCount (p : IPending) : IPending :=
  {| requestId := requestId p; acknowledged := acknowledged p;
     request := request p; maxRetryCount := 0;
     retries := retries p; sent := sent p; resolve := resolve p |}.

Definition eraseEntries (m : JsMap.t IPending) : JsMap.t IPending :=
  map (fun kv => (fst kv, withoutMaxRetryCount (snd kv))) m.

Definition eraseInput (i : Input) : Input :=
  match i with
  | CallSendMessage now req _ => CallSendMessage now req None
  | other => other
  end.

Definition eraseArg (a : LogArg) : LogArg :=
  match a with
  | ArgPending p => ArgPending (withoutMaxRetryCount p)
  | other => other
  end.

Definition eraseEffect (e : Effect) : Effect :=
  match e with
  | LoggerError format args => LoggerError format (map eraseArg args)
  | other => other
  end.

Definition eraseClient (c : Client) : Client :=
  {| _WebSocket := _WebSocket c; _url := _url c;
     _getRandomValues := _getRandomValues c; _codec := _codec c;
     pending := eraseEntries (pending c); session := session c;
     connection := connection c;
     randomDraws := randomDraws c; promises := promises c;
     effects := map eraseEffect (effects c) |}.

(** ** Invariants of the registry and of the entries *)

(** Every entry sits under the decimal form of its own id, an unsigned
    64-bit value, and no key occurs twice. *)
Definition keyed (c : Client) : Prop :=
  NoDup (JsMap.keys (pending c))
  /\ forall k p, In (k, p) (pending c) ->
       k = Long_toString (requestId p) /\ (requestId p < 2 ^ 64)%N.





(** A resolver that belongs to a promise already created, is held by no
    entry and was never called. *)
Definition orphan (r : nat) (c : Client) : Prop :=
  (r < promises c)%nat
  /\ ~ In r (resolversOf (pending c))
  /\ ~ In r (resolved c).

(** The answers of the random source spent on a session id. *)
Definition sessionDraws (c : Client) : nat :=
  match session c with Some _ => 1%nat | None => 0%nat end.

Definition isCallSendMessage (i : Input) : bool :=
  match i with CallSendMessage _ _ _ => true | _ => false end.

Definition isSetReadyState (i : Input) : bool :=
  match i with SetReadyState _ => true | _ => false end.

(** A frame that carries the id of session [s]. *)
Definition carriesSession (c : Client) (s : Session) (f : Uint8Array)
    : Prop :=
  exists (rid : string) (req : Request),
    f = encode (_codec c)
          {| mrRequestId := rid; mrRequest := req;
             mrSessionId := Long_toString (id s) |}.

(** Every frame written so far carries the id of the current session;
    without a session nothing was written. *)
Definition oneSession (c : Client) : Prop :=
  match session c with
  | None => sentFrames (effects c) = []
  | Some s => Forall (carriesSession c s) (sentFrames (effects c))
  end.

(** The instance held is the constructor's, put in binary mode, with the
    four listeners added once. *)
Definition wired (c : Client) : Prop :=
  forall ws, connection c = Some ws ->
    binaryType ws = "arraybuffer"%string
    /\ listeners ws
       = listeners (construct (_WebSocket c) (_url c))
         ++ ["close"%string; "error"%string; "open"%string;
             "message"%string].

(** What one handler run can do to an entry that stays in the registry:
    nothing, record one write that the retry gate let through, or set
    the acknowledged flag of an entry that was not acknowledged. *)
Inductive touched : IPending -> IPending -> Prop :=
| touched_same p : touched p p
| touched_write now p : due now p = true -> touched p (recordWrite now p)
| touched_acknowledge p :
    acknowledged p = false -> touched p (withAcknowledged true p).

(** ** [LoggerNetwork] *)

Section Facade.

(** The page schema and the converter, which live outside the
    repository's sources. *)
Variables objectId Converted : Type.
Variable convert : unknown -> Converted.

Inductive LineType : Type := lineTypeLog | lineTypeError.

Variable AddPageLine : list Converted -> objectId -> LineType -> Request.

(** [result._name === "app.page.addPageLineResult"]. *)
Variable isAddPageLineResult : Settled -> bool.

(** The two revisions of the class kept in [LoggerNetwork.ts]: the
    first reports through [super.error]/[super.log] inside [#store],
    the second has those calls commented out. *)
Inductive Revision : Type := Reporting | Silent.

(** Calls on the base class [Logger]. *)
Inductive SuperCall : Type :=
| SuperLog (args : list unknown)
| SuperError (args : list unknown)
| SuperErrorText (text : string)
| SuperErrorResult (format : string) (value : Settled)
| SuperLogResult (value : Settled).

(** [#pageId] is a promise: [None] while it is not settled.  [chain]
    holds the callbacks chained on [#pending] that have not finished,
    oldest first; [awaiting] is the promise returned by [sendMessage]
    on which the oldest callback is suspended. *)
Record LoggerNetwork : Type := {
  client : Client;
  pageId : option (option objectId);
  chain : list (LineType * list unknown);
  awaiting : option nat;
  console : list SuperCall
}.

(** [#store(lineType, args)]: chains one more callback. *)
Definition store (lineType : LineType) (args : list unknown)
    (l : LoggerNetwork) : LoggerNetwork :=
  {| client := client l; pageId := pageId l;
     chain := chain l ++ [(lineType, args)];
     awaiting := awaiting l; console := console l |}.

(** [log(...args)] and [error(...args)]. *)
Definition log (args : list unknown) (l : LoggerNetwork) : LoggerNetwork :=
  let l1 := store lineTypeLog args l in
  {| client := client l1; pageId := pageId l1; chain := chain l1;
     awaiting := awaiting l1; console := console l1 ++ [SuperLog args] |}.

Definition error (args : list unknown) (l : LoggerNetwork)
    : LoggerNetwork :=
  let l1 := store lineTypeError args l in
  {| client := client l1; pageId := pageId l1; chain := chain l1;
     awaiting := awaiting l1;
     console := console l1 ++ [SuperError args] |}.

(** What the branch [pageId === null] of the callback prints. *)
Definition noPageId (revision : Revision) : list SuperCall :=
  match revision with
  | Reporting => [SuperErrorText "no page id available, failed to proceed"]
  | Silent => []
  end.

(** The chained callbacks, run in order once [#pageId] has settled
    with [page], until one suspends on [await sendMessage(...)]. *)
Fixpoint runChain (revision : Revision) (now : DateTime)
    (page : option objectId) (jobs : list (LineType * list unknown))
    (c : Client) (out : list SuperCall)
    : list (LineType * list unknown) * option nat * Client
      * list SuperCall :=
  match jobs with
  | [] => ([], None, c, out)
  | (lineType, args) :: rest =>
      match page with
      | None =>
          runChain revision now page rest c (out ++ noPageId revision)
      | Some thePage =>
          let (handle, c1) :=
            sendMessage now
              (AddPageLine (map convert args) thePage lineType) None c in
          (jobs, Some handle, c1, out)
      end
  end.

(** The microtask checkpoint: nothing runs while [#pageId] is not
    settled or while the oldest callback awaits its result. *)
Definition pump (revision : Revision) (now : DateTime)
    (l : LoggerNetwork) : LoggerNetwork :=
  match pageId l, awaiting l with
  | Some page, None =>
      let '(jobs, handle, c, out) :=
        runChain revision now page (chain l) (client l) (console l) in
      {| client := c; pageId := pageId l; chain := jobs;
         awaiting := handle; console := out |}
  | _, _ => l
  end.

(** What the callback prints after [await sendMessage(...)]. *)
Definition afterResult (revision : Revision) (value : Settled)
    : list SuperCall :=
  match revision with
  | Reporting =>
      if isAddPageLineResult value then [SuperLogResult value]
      else [SuperErrorResult "failed to store line with error: %o" value]
  | Silent => []
  end.

(** The awaited promise settles with [value]: the oldest callback
    finishes and the chain goes on. *)
Definition resume (revision : Revision) (now : DateTime)
    (value : Settled) (l : LoggerNetwork) : LoggerNetwork :=
  match awaiting l with
  | None => l
  | Some _ =>
      pump revision now
        {| client := client l; pageId := pageId l;
           chain := tl (chain l); awaiting := None;
           console := console l ++ afterResult revision value |}
  end.

(** The promises awaited by the chain settle one after the other, each
    at its own instant. *)
Definition settle (revision : Revision)
    (events : list (DateTime * Settled)) (l : LoggerNetwork)
    : LoggerNetwork :=
  fold_left (fun state event => resume revision (fst event) (snd event) state)
    events l.

(** The state of a chain whose page id is [page]: with no line left
    nothing is awaited; otherwise the promise awaited is the one of the
    latest [sendMessage], whose entry in the client's registry carries
    the oldest line left. *)
Definition inFlight (page : objectId) (l : LoggerNetwork) : Prop :=
  pageId l = Some (Some page)
  /\ match chain l with
     | [] => awaiting l = None
     | (lineType, args) :: _ =>
         exists e : IPending,
           In e (JsMap.values (pending (client l)))
           /\ request e = AddPageLine (map convert args) page lineType
           /\ awaiting l = Some (resolve e)
           /\ S (resolve e) = promises (client l)
     end.

End Facade.

End ClientModel.

Arguments SettledResult {Result Error} result.
Arguments SettledError {Result Error} error.
Arguments acknowledgeMessage {Result Error} messageId.
Arguments messageProtocolError {Result Error} detail.
Arguments unrecognizedMessage {Result Error} _name.
Arguments messageResultError {Result Error} requestId error.
Arguments messageResultSuccess {Result Error} requestId result.
Arguments WebSocketNew {Request Result Error} url.
Arguments WebSocketSend {Request Result Error} data.
Arguments PendingSet {Request Result Error} key.
Arguments PendingDelete {Request Result Error} key.
Arguments LoggerError {Request Result Error} format args.
Arguments Resolve {Request Result Error} resolver value.
Arguments ArgString {Request Result Error} s.
Arguments ArgBytes {Request Result Error} b.
Arguments ArgCloseEvent {Request Result Error} e.
Arguments ArgUnknown {Request Result Error} u.
Arguments ArgPending {Request Result Error} p.
Arguments ArgMessage {Request Result Error} m.
Arguments CallSendMessage {Request} now req maxRetryCountOption.
Arguments SetReadyState {Request} state.
Arguments FireOpen {Request} now.
Arguments FireClose {Request} e.
Arguments FireError {Request} args.
Arguments FireMessage {Request} data.
Arguments isFireClose {Request} i.
Arguments isCallSendMessage {Request} i.
Arguments isSetReadyState {Request} i.
Arguments eraseInput {Request} i.
Arguments eraseEffect {Request Result Error} e.
Arguments eraseArg {Request Result Error} a.

(** ** A concrete client, for evaluating the model

    Payloads are strings, the transport has the constants of the browser
    [WebSocket], the random source answers 1, 2, 3, ... and the codec is
    a readable toy one. *)
Module Sample.

Definition browserWebSocket : IWebSocketConstructor :=
  {| CONNECTING := 0; OPEN := 1; CLOSING := 2; CLOSED := 3;
     construct := fun _ =>
       {| readyState := 0; binaryType := "blob"; listeners := [] |} |}.

Definition counting (n : nat) : list byte :=
  match Byte.of_N (N.of_nat (S n)) with
  | Some b => [b; x00; x00; x00; x00; x00; x00; x00]
  | None => [x00; x00; x00; x00; x00; x00; x00; x00]
  end.

Definition toyEncode (m : messageRequest string) : Uint8Array :=
  list_byte_of_string
    (mrRequestId m ++ "/" ++ mrSessionId m ++ "/" ++ mrRequest m).

Definition toyDecode (bytes : Uint8Array)
    : option (ServerMessage string string) :=
  match string_of_list_byte bytes with
  | String "A" rest => Some (acknowledgeMessage rest)
  | String "P" rest => Some (messageProtocolError rest)
  | String "S" rest => Some (messageResultSuccess rest "done")
  | String "E" rest => Some (messageResultError rest "refused")
  | String "U" rest => Some (unrecognizedMessage rest)
  | _ => None
  end%string.

Definition options : IClientOptions string string string :=
  {| url := "ws://peer"; WebSocket := browserWebSocket;
     getRandomValues := counting;
     codec := {| encode := toyEncode; decode := toyDecode |} |}.

Definition fresh : Client string string string := newClient options.

Definition closeEvent : ICloseEvent :=
  {| code := 1006; reason := ""; wasClean := false |}.

Definition frame (text : string) : unknown :=
  ArrayBuffer (list_byte_of_string text).

(** One request sent at instant 0 on an open transport. *)
Definition oneSent : Client string string string :=
  run fresh
    [CallSendMessage 0 "line"%string None; SetReadyState 1; FireOpen 0].

(** The same client after the transport closed and its replacement
    reached the open state (the [open] event has not fired yet). *)
Definition reopened : Client string string string :=
  run oneSent [FireClose closeEvent; SetReadyState 1].

(** The frame of the request under session 2, and the entry of
    [oneSent]. *)
Definition lineFrame : Uint8Array :=
  toyEncode
    {| mrRequestId := "1"; mrRequest := "line"%string; mrSessionId := "2" |}.

Definition sentEntry : IPending string :=
  {| requestId := 1%N; acknowledged := false; request := "line"%string;
     maxRetryCount := 4; retries := [];
     sent := Some {| date := 0; expiresAt := 10000 |}; resolve := 0 |}.

(** A request registered while the transport is still connecting: never
    sent, never acknowledged. *)
Definition queued : Client string string string :=
  run fresh [CallSendMessage 0 "line"%string None].

Definition queuedEntry : IPending string :=
  {| requestId := 1%N; acknowledged := false; request := "line"%string;
     maxRetryCount := 4; retries := []; sent := None; resolve := 0 |}.

(** An entry whose attempts have all expired at 60 s, with more retries
    recorded than its [maxRetryCount]. *)
Definition worn : IPending string :=
  {| requestId := 1%N; acknowledged := false; request := "line"%string;
     maxRetryCount := 2;
     retries := [ {| date := 10000; expiresAt := 20000 |};
                  {| date := 20000; expiresAt := 30000 |};
                  {| date := 30000; expiresAt := 40000 |} ];
     sent := Some {| date := 0; expiresAt := 10000 |}; resolve := 0 |}.

(** The same scenario with two values of [maxRetryCount]. *)
Definition scenario (limit : number) : list (Input string) :=
  [CallSendMessage 0 "line"%string (Some limit); SetReadyState 1;
   FireOpen 0; FireOpen 10000; FireOpen 15000; FireOpen 20000;
   FireMessage (frame "A1"); FireMessage (frame "S1")].

(** A random source stuck on one answer: every id it gives is 5. *)
Definition stuck (n : nat) : list byte :=
  [x05; x00; x00; x00; x00; x00; x00; x00].

Definition stuckOptions : IClientOptions string string string :=
  {| url := "ws://peer"; WebSocket := browserWebSocket;
     getRandomValues := stuck;
     codec := {| encode := toyEncode; decode := toyDecode |} |}.

(** One request registered off line under id 5. *)
Definition firstOfTwo : Client string string string :=
  run (newClient stuckOptions) [CallSendMessage 0 "first"%string None].

(** A logger over the fresh client whose page id resolved to null, with
    two lines already queued. *)
Definition describe (u : unknown) : string :=
  match u with
  | ArrayBuffer _ => "[bytes]"
  | NotArrayBuffer text => text
  end.

Definition addPageLine (line : list string) (page : string)
    (lineType : LineType) : string :=
  (page ++ ":" ++ String.concat " " line)%string.

Definition pageless : LoggerNetwork string string string string :=
  {| client := oneSent; pageId := Some None;
     chain := [(lineTypeLog, [NotArrayBuffer "first"]);
               (lineTypeError, [NotArrayBuffer "second"])];
     awaiting := None; console := [] |}.




(** The entry of [firstOfTwo]. *)
Definition firstEntry : IPending string :=
  {| requestId := 5%N; acknowledged := false; request := "first"%string;
     maxRetryCount := 4; retries := []; sent := None; resolve := 0 |}.

(** The transport instance of the sample client, once open. *)
Definition openSocket : IWebSocket :=
  {| readyState := 1; binaryType := "arraybuffer";
     listeners := ["close"; "error"; "open"; "message"]%string |}.

(** A logger whose page id resolved to a page, with three lines queued. *)
Definition paged : LoggerNetwork string string string string :=
  {| client := oneSent; pageId := Some (Some "page"%string);
     chain := [(lineTypeLog, [NotArrayBuffer "first"]);
               (lineTypeError, [NotArrayBuffer "second"]);
               (lineTypeLog, [NotArrayBuffer "third"])];
     awaiting := None; console := [] |}.

End Sample.


(** * Properties *)

(** ** The map of pending requests *)

Section JsMapFacts.

Variable V : Type.
Implicit Types (m : JsMap.t V) (k : string) (v : V).

Lemma get_delete_same k m : JsMap.get k (JsMap.delete k m) = None.
Proof.
  induction m as [|[k0 v0] m IH]; simpl; [reflexivity|].
  destruct (String.eqb k k0) eqn:E; [exact IH|].
  simpl. now rewrite E.
Qed.

Lemma get_set_same k v m : JsMap.get k (JsMap.set k v m) = Some v.
Proof.
  induction m as [|[k0 v0] m IH]; simpl.
  - now rewrite String.eqb_refl.
  - destruct (String.eqb k k0) eqn:E; simpl; now rewrite E.
Qed.

Lemma get_set_other k k' v m :
  k' <> k -> JsMap.get k' (JsMap.set k v m) = JsMap.get k' m.
Proof.
  intros Hne. induction m as [|[k0 v0] m IH]; simpl.
  - apply String.eqb_neq in Hne. now rewrite Hne.
  - destruct (String.eqb k k0) eqn:E; simpl.
    + apply String.eqb_eq in E. subst k0.
      apply String.eqb_neq in Hne. now rewrite Hne.
    + now rewrite IH.
Qed.

Lemma get_delete_other k k' m :
  k' <> k -> JsMap.get k' (JsMap.delete k m) = JsMap.get k' m.
Proof.
  intros Hne. induction m as [|[k0 v0] m IH]; simpl; [reflexivity|].
  destruct (String.eqb k k0) eqn:E; simpl.
  - apply String.eqb_eq in E. subst k0.
    apply String.eqb_neq in Hne. now rewrite Hne.
  - now rewrite IH.
Qed.

Lemma delete_absent k m : JsMap.get k m = None -> JsMap.delete k m = m.
Proof.
  induction m as [|[k0 v0] m IH]; simpl; [reflexivity|].
  destruct (String.eqb k k0); [discriminate|].
  intros H. now rewrite IH.
Qed.

Lemma keys_set_present k v v' m :
  JsMap.get k m = Some v' -> JsMap.keys (JsMap.set k v m) = JsMap.keys m.
Proof.
  induction m as [|[k0 v0] m IH]; simpl; [discriminate|].
  destruct (String.eqb k k0) eqn:E; simpl; [reflexivity|].
  intros H. f_equal. now apply IH.
Qed.

End JsMapFacts.

Section Properties.

Variables Request Result Error : Type.

Local Abbreviation TClient := (Client Request Result Error).
Local Abbreviation TPending := (IPending Request).
Local Abbreviation TEffect := (Effect Request Result Error).
Local Abbreviation TInput := (Input Request).

Implicit Types (c : TClient) (p : TPending) (now : DateTime).

(** ** The trace of effects *)

Lemma sentFrames_app (a b : list TEffect) :
  sentFrames (a ++ b) = sentFrames a ++ sentFrames b.
Proof.
  induction a as [|e a IH]; simpl; [reflexivity|].
  destruct e; simpl; now rewrite ?IH.
Qed.

Lemma resolutions_app (a b : list TEffect) :
  resolutions (a ++ b) = resolutions a ++ resolutions b.
Proof.
  induction a as [|e a IH]; simpl; [reflexivity|].
  destruct e; simpl; now rewrite ?IH.
Qed.

Lemma countNew_app (a b : list TEffect) :
  countNew (a ++ b) = (countNew a + countNew b)%nat.
Proof. unfold countNew. now rewrite filter_app, length_app. Qed.

Lemma emitAll_nil c : emitAll [] c = c.
Proof. destruct c; unfold emitAll; simpl. now rewrite app_nil_r. Qed.

Lemma emitAll_emitAll (a b : list TEffect) c :
  emitAll b (emitAll a c) = emitAll (a ++ b) c.
Proof. unfold emitAll; simpl. now rewrite app_assoc. Qed.

(** ** The retry/send engine *)

Lemma ensureSession_present c s :
  session c = Some s -> ensureSession c = (s, c).
Proof. unfold ensureSession. now intros ->. Qed.

Lemma ensureSession_connection c :
  connection (snd (ensureSession c)) = connection c
  /\ _WebSocket (snd (ensureSession c)) = _WebSocket c
  /\ _codec (snd (ensureSession c)) = _codec c
  /\ pending (snd (ensureSession c)) = pending c
  /\ promises (snd (ensureSession c)) = promises c
  /\ effects (snd (ensureSession c)) = effects c
  /\ session (snd (ensureSession c)) = Some (fst (ensureSession c)).
Proof.
  unfold ensureSession. destruct (session c) eqn:E; simpl; auto 10.
Qed.

Lemma isConnected_ensureSession c :
  isConnected (snd (ensureSession c)) = isConnected c.
Proof.
  unfold isConnected.
  destruct (ensureSession_connection c) as (-> & -> & _). reflexivity.
Qed.

Lemma send_connected (value : Uint8Array) c :
  isConnected c = true ->
  send value c = (true, emit (WebSocketSend value) c).
Proof.
  unfold isConnected, send. destruct (connection c); [|discriminate].
  now intros ->.
Qed.

(** [#sendMessageRequest] in one equation: off line it only connects; on
    line it makes sure a session exists, and writes the frame exactly
    when the entry is [due]. *)
Lemma sendMessageRequest_spec now c p :
  sendMessageRequest now c p =
    if isConnected c then
      if due now p then
        (emit (WebSocketSend
                 (frameOf c (fst (ensureSession c)) p))
              (snd (ensureSession c)),
         recordWrite now p)
      else (snd (ensureSession c), p)
    else (connect c, p).
Proof.
  unfold sendMessageRequest.
  destruct (isConnected c) eqn:Hc; simpl; [|reflexivity].
  pose proof (isConnected_ensureSession c) as Hc1. rewrite Hc in Hc1.
  destruct (ensureSession_connection c) as (_ & _ & Hcodec & _).
  destruct (ensureSession c) as [s c1] eqn:Es. simpl in *.
  unfold due, recordWrite, frameOf, isPendingSentInformationExpired.
  rewrite Hcodec.
  destruct (sent p) as [information|] eqn:Hs.
  - destruct (now >=? expiresAt information) eqn:Hx; simpl; [|reflexivity].
    destruct (lastRetry p) as [r|]; simpl.
    + destruct (now >=? expiresAt r); simpl; [|reflexivity].
      now rewrite send_connected.
    + now rewrite send_connected.
  - now rewrite send_connected.
Qed.

(** What a pass never touches. *)
Lemma sendMessageRequest_frame now c p :
  let c' := fst (sendMessageRequest now c p) in
  let p' := snd (sendMessageRequest now c p) in
  pending c' = pending c /\ promises c' = promises c
  /\ _codec c' = _codec c /\ _WebSocket c' = _WebSocket c
  /\ resolutions (effects c') = resolutions (effects c)
  /\ resolve p' = resolve p /\ requestId p' = requestId p
  /\ acknowledged p' = acknowledged p.
Proof.
  rewrite sendMessageRequest_spec.
  destruct (ensureSession_connection c) as (_ & Hw & Hk & Hp & Hn & He & _).
  destruct (isConnected c); [destruct (due now p)|]; simpl;
    rewrite ?resolutions_app, ?Hw, ?Hk, ?Hp, ?Hn, ?He; simpl;
    rewrite ?app_nil_r.
  - unfold recordWrite. destruct (sent p); simpl; auto 10.
  - auto 10.
  - unfold connect. destruct (connection c); simpl;
      rewrite ?resolutions_app; simpl; rewrite ?app_nil_r; auto 10.
Qed.

Lemma sentFrames_sends (frames : list Uint8Array) :
  sentFrames (map (fun f => WebSocketSend f : TEffect) frames) = frames.
Proof. induction frames as [|f l IH]; simpl; now rewrite ?IH. Qed.

Lemma resolutions_sends (frames : list Uint8Array) :
  resolutions (map (fun f => WebSocketSend f : TEffect) frames) = [].
Proof. induction frames as [|f l IH]; simpl; now rewrite ?IH. Qed.

Lemma countNew_sends (frames : list Uint8Array) :
  countNew (map (fun f => WebSocketSend f : TEffect) frames) = 0%nat.
Proof. induction frames as [|f l IH]; simpl; now rewrite ?IH. Qed.

(** The loop on an open transport whose session exists: the frames of the
    entries that are due are written in registry order, and nothing else
    happens to the client. *)
Lemma driveEntries_online now (m : JsMap.t TPending) : forall c s,
  isConnected c = true -> session c = Some s ->
  driveEntries now c m =
    (emitAll (map (fun f => WebSocketSend f) (dueFrames now c s m)) c,
     drivenEntries now m).
Proof.
  induction m as [|[k p] m IH]; intros c s Hc Hs.
  - simpl. now rewrite emitAll_nil.
  - cbn [driveEntries]. rewrite sendMessageRequest_spec, Hc.
    rewrite (@ensureSession_present c s Hs). cbn [fst snd].
    unfold dueFrames, drivenEntries, drive. cbn [JsMap.values map filter snd fst].
    destruct (due now p).
    + rewrite (IH (emit (WebSocketSend (frameOf c s p)) c) s Hc Hs).
      unfold emit. rewrite emitAll_emitAll. reflexivity.
    + rewrite (IH c s Hc Hs). reflexivity.
Qed.

Lemma sendMessageRequest_ensured now c p :
  isConnected c = true ->
  sendMessageRequest now c p =
  sendMessageRequest now (snd (ensureSession c)) p.
Proof.
  intros Hc. rewrite !sendMessageRequest_spec.
  rewrite isConnected_ensureSession, Hc.
  destruct (ensureSession_connection c) as (_ & _ & Hk & _ & _ & _ & Hs).
  rewrite (@ensureSession_present _ _ Hs). cbn [fst snd].
  unfold frameOf. now rewrite Hk.
Qed.

Lemma driveEntries_ensured now c (k : string) p (m : JsMap.t TPending) :
  isConnected c = true ->
  driveEntries now c ((k, p) :: m) =
  driveEntries now (snd (ensureSession c)) ((k, p) :: m).
Proof.
  intros Hc. cbn [driveEntries]. now rewrite sendMessageRequest_ensured.
Qed.

(** [onOpen] on an open transport. *)
Lemma onOpen_connected now c :
  isConnected c = true ->
  onOpen now c =
    match pending c with
    | [] => c
    | _ :: _ =>
        withPending (drivenEntries now (pending c))
          (emitAll
             (map (fun f => WebSocketSend f)
                (dueFrames now c (fst (ensureSession c)) (pending c)))
             (snd (ensureSession c)))
    end.
Proof.
  intros Hc. unfold onOpen, checkPendingRequests.
  destruct (pending c) as [|[k p] m] eqn:Hm.
  - simpl. destruct c; simpl in *. now subst.
  - rewrite driveEntries_ensured by exact Hc.
    destruct (ensureSession_connection c) as (_ & _ & Hk & _ & _ & _ & Hs).
    rewrite (@driveEntries_online now ((k, p) :: m) _ _
               (eq_trans (isConnected_ensureSession c) Hc) Hs).
    unfold dueFrames, frameOf. rewrite Hk. reflexivity.
Qed.

(** ** The connection manager *)

Lemma connect_present c (ws : IWebSocket) :
  connection c = Some ws -> connect c = c.
Proof. unfold connect. now intros ->. Qed.

Lemma onClose_spec (e : ICloseEvent) c :
  onClose e c =
    withConnection
      (Some (subscribed (construct (_WebSocket c) (_url c))))
      (emitAll [LoggerError "received close event: %o" [ArgCloseEvent e];
                WebSocketNew (_url c)] c).
Proof.
  destruct c. unfold onClose, connect, emit, emitAll, withConnection. simpl.
  now rewrite <- app_assoc.
Qed.

Lemma isConnected_setReadyState c (ws : IWebSocket) :
  connection c = Some ws ->
  isConnected (setReadyState (OPEN (_WebSocket c)) c) = true.
Proof.
  unfold setReadyState, isConnected. intros ->. simpl. apply Z.eqb_refl.
Qed.

(** A close, the replacement reaching the open state, and the [open]
    event at [now]: every entry gets a pass, the entries that are due are
    written under the session the first pass finds or creates. *)
Lemma reopen_spec (e : ICloseEvent) now c :
  let c1 := setReadyState (OPEN (_WebSocket c)) (onClose e c) in
  let s := fst (ensureSession c1) in
  isConnected c1 = true
  /\ pending (onOpen now c1) = drivenEntries now (pending c)
  /\ effects (onOpen now c1) =
       effects c
       ++ [LoggerError "received close event: %o" [ArgCloseEvent e];
           WebSocketNew (_url c)]
       ++ map (fun f => WebSocketSend f) (dueFrames now c s (pending c))
  /\ (forall s0, session c = Some s0 ->
        s = s0 /\ session (onOpen now c1) = Some s0).
Proof.
  intros c1 s. subst s.
  assert (Hconn : isConnected c1 = true).
  { subst c1. rewrite onClose_spec.
    exact (@isConnected_setReadyState
             (withConnection _ (emitAll _ c)) _ eq_refl). }
  assert (Hp : pending c1 = pending c)
    by (subst c1; rewrite onClose_spec; reflexivity).
  assert (He : effects c1 =
               effects c ++ [LoggerError "received close event: %o"
                               [ArgCloseEvent e]; WebSocketNew (_url c)])
    by (subst c1; rewrite onClose_spec; reflexivity).
  assert (Hk : _codec c1 = _codec c)
    by (subst c1; rewrite onClose_spec; reflexivity).
  assert (Hs : session c1 = session c)
    by (subst c1; rewrite onClose_spec; reflexivity).
  assert (Hd : forall s, dueFrames now c1 s (pending c1)
                         = dueFrames now c s (pending c)).
  { intros s. unfold dueFrames, frameOf. now rewrite Hk, Hp. }
  assert (Hsame : forall s0, session c = Some s0 ->
                             fst (ensureSession c1) = s0).
  { intros s0 H0.
    now rewrite (@ensureSession_present c1 s0 (eq_trans Hs H0)). }
  split; [exact Hconn|].
  rewrite (@onOpen_connected now c1 Hconn).
  destruct (ensureSession_connection c1) as (_ & _ & _ & Hp' & _ & He' & Hs').
  rewrite Hd. clearbody c1. rewrite Hp.
  destruct (pending c) as [|kp m] eqn:Hm.
  - rewrite Hp, He. cbn [dueFrames JsMap.values map filter drivenEntries].
    repeat split; trivial.
    + now apply Hsame.
    + now rewrite Hs.
  - cbn [pending withPending effects emitAll].
    rewrite He', He, <- app_assoc.
    repeat split; trivial.
    + now apply Hsame.
    + unfold withPending, emitAll. cbn [session]. rewrite Hs'. f_equal.
      now apply Hsame.
Qed.

(** C1 (as amended): a close event makes the client drop the transport
    instance and construct a new one, but it keeps the current session:
    after the replacement has opened, the session is still the one in
    use before the close, and every frame written for a pending request
    by the [open] handler carries that same session id. *)
Theorem C1_close_keeps_session (e : ICloseEvent) now c (s : Session) :
  session c = Some s ->
  let closed := onClose e c in
  let reopened := onOpen now (setReadyState (OPEN (_WebSocket c)) closed) in
  session closed = Some s
  /\ connection closed
     = Some (subscribed (construct (_WebSocket c) (_url c)))
  /\ session reopened = Some s
  /\ sentFrames (effects reopened)
     = sentFrames (effects c) ++ map (frameOf c s)
                                   (filter (due now) (JsMap.values (pending c))).
Proof.
  intros Hs closed reopened.
  destruct (reopen_spec e now c) as (_ & _ & He & Hsess).
  destruct (Hsess s Hs) as [Heq Hs2].
  split; [|split; [|split]].
  - subst closed. rewrite onClose_spec. exact Hs.
  - subst closed. now rewrite onClose_spec.
  - exact Hs2.
  - subst reopened closed. rewrite He, Heq.
    rewrite !sentFrames_app, sentFrames_sends. reflexivity.
Qed.

(** C3 (as amended): after a close, once the replacement transport is
    open, the [open] handler runs one pass for every pending request (the
    registry keeps its N entries, each one driven), and the frames written
    on the new transport are exactly those of the requests that are due
    (never sent, or initial send and latest retry both expired), in
    registry order; a request inside its window is not written. *)
Theorem C3_reopen_drives_due_entries (e : ICloseEvent) now c :
  let c1 := setReadyState (OPEN (_WebSocket c)) (onClose e c) in
  let c2 := onOpen now c1 in
  isConnected c1 = true
  /\ pending c2 = drivenEntries now (pending c)
  /\ List.length (pending c2) = List.length (pending c)
  /\ JsMap.keys (pending c2) = JsMap.keys (pending c)
  /\ effects c2 =
       effects c
       ++ [LoggerError "received close event: %o" [ArgCloseEvent e];
           WebSocketNew (_url c)]
       ++ map (fun f => WebSocketSend f)
            (map (frameOf c (fst (ensureSession c1)))
               (filter (due now) (JsMap.values (pending c)))).
Proof.
  intros c1 c2.
  destruct (reopen_spec e now c) as (Hc & Hp & He & _).
  fold c1 in Hc, Hp, He. fold c2 in Hp, He.
  repeat split; trivial.
  - rewrite Hp. unfold drivenEntries. now rewrite length_map.
  - rewrite Hp. unfold drivenEntries, JsMap.keys. rewrite map_map.
    reflexivity.
Qed.

(** The frames of one pass. *)
Lemma sendMessageRequest_frames now c p :
  sentFrames (effects (fst (sendMessageRequest now c p))) =
  sentFrames (effects c)
  ++ (if isConnected c && due now p
      then [frameOf c (fst (ensureSession c)) p] else []).
Proof.
  rewrite sendMessageRequest_spec.
  destruct (ensureSession_connection c) as (_ & _ & _ & _ & _ & He & _).
  destruct (isConnected c); [destruct (due now p)|]; simpl.
  - now rewrite sentFrames_app, He.
  - now rewrite He, app_nil_r.
  - rewrite app_nil_r. unfold connect.
    destruct (connection c); [reflexivity|]. simpl.
    rewrite sentFrames_app. simpl. now rewrite app_nil_r.
Qed.

Lemma lastRetry_snoc p (r : IPendingSentInformation) :
  lastRetry (withRetries (retries p ++ [r]) p) = Some r.
Proof.
  unfold lastRetry. cbn [retries withRetries].
  destruct (retries p ++ [r]) eqn:E.
  - now destruct (retries p).
  - rewrite <- E, length_app. simpl.
    replace (List.length (retries p) + 1 - 1)%nat
      with (List.length (retries p)) by lia.
    rewrite nth_error_app2 by lia. now rewrite Nat.sub_diag.
Qed.

Lemma geb_false (a b : Z) : a < b -> (a >=? b) = false.
Proof. intros H. rewrite Z.geb_leb. apply Z.leb_gt. exact H. Qed.

(** After a pass that wrote at [now], the entry is not due before
    [now + 10 s]. *)
Lemma due_after_write now later p :
  later < now + 10000 -> due later (recordWrite now p) = false.
Proof.
  intros Hlt. unfold recordWrite, due.
  destruct (sent p) as [i|] eqn:Hs.
  - cbn [sent withRetries]. rewrite Hs, lastRetry_snoc.
    cbn [expiresAt]. unfold DateTime_plus, expirationDifference.
    destruct (later >=? expiresAt i); [|reflexivity].
    simpl. apply geb_false. lia.
  - cbn [sent withSent expiresAt].
    unfold DateTime_plus, expirationDifference.
    replace (later >=? now + 10 * 1000) with false; [reflexivity|].
    symmetry. apply geb_false. lia.
Qed.

(** C4: one pass writes at most one frame, and only through the retry
    gate: the transport is open and the request was never sent, or its
    initial send has expired and so has its latest retry, if any.  After
    a pass that wrote at [now], no pass before [now + 10 s] writes.  With
    an initial send at [t0], a pass before [t0 + 10 s] (the 5 s mark, for
    one) writes nothing, and a pass at or after [t0 + 10 s] with no retry
    recorded writes exactly one frame and records exactly one retry. *)
Theorem C4_one_write_per_window now later (t0 : DateTime) c c2 p :
  let pass := sendMessageRequest now c p in
  let written := fun (before after : TClient) =>
    skipn (List.length (sentFrames (effects before)))
          (sentFrames (effects after)) in
  (sentFrames (effects (fst pass))
   = sentFrames (effects c)
     ++ (if isConnected c && due now p
         then [frameOf c (fst (ensureSession c)) p] else []))
  /\ (written c (fst pass) <> [] ->
      isConnected c = true
      /\ (sent p = None
          \/ exists i, sent p = Some i /\ expiresAt i <= now
               /\ forall r, lastRetry p = Some r -> expiresAt r <= now))
  /\ (written c (fst pass) <> [] -> later < now + 10000 ->
      written c2 (fst (sendMessageRequest later c2 (snd pass))) = [])
  /\ (sent p = Some {| date := t0; expiresAt := t0 + 10000 |} ->
      now < t0 + 10000 ->
      written c (fst pass) = [] /\ snd pass = p)
  /\ (sent p = Some {| date := t0; expiresAt := t0 + 10000 |} ->
      retries p = [] -> isConnected c = true -> t0 + 10000 <= now ->
      written c (fst pass) = [frameOf c (fst (ensureSession c)) p]
      /\ retries (snd pass) = [{| date := now; expiresAt := now + 10000 |}]
      /\ sent (snd pass) = sent p).
Proof.
  intros pass written.
  assert (Hw : forall t d q,
            written d (fst (sendMessageRequest t d q)) =
            if isConnected d && due t q
            then [frameOf d (fst (ensureSession d)) q] else []).
  { intros t d q. unfold written. rewrite sendMessageRequest_frames.
    rewrite skipn_app, skipn_all, Nat.sub_diag. reflexivity. }
  assert (Hpass : snd pass =
                  if isConnected c && due now p then recordWrite now p else p).
  { unfold pass. rewrite sendMessageRequest_spec.
    destruct (isConnected c); [destruct (due now p)|]; reflexivity. }
  split; [apply sendMessageRequest_frames|].
  split; [|split; [|split]].
  - unfold pass. rewrite Hw.
    destruct (isConnected c); simpl; [|congruence].
    destruct (due now p) eqn:Hd; [|congruence].
    intros _. split; [reflexivity|].
    unfold due in Hd. destruct (sent p) as [i|]; [right|now left].
    exists i. apply andb_prop in Hd. destruct Hd as [H1 H2].
    split; [reflexivity|]. split; [apply Z.geb_le in H1; lia|].
    intros r Hr. rewrite Hr in H2. apply Z.geb_le in H2. lia.
  - unfold pass at 1. rewrite Hw, Hpass.
    destruct (isConnected c && due now p); [|congruence].
    intros _ Hlt. rewrite Hw, (@due_after_write now later p Hlt).
    now rewrite andb_false_r.
  - intros Hs Hlt.
    assert (Hd : due now p = false).
    { unfold due. rewrite Hs. cbn [expiresAt].
      replace (now >=? t0 + 10000) with false; [reflexivity|].
      symmetry. apply geb_false. lia. }
    unfold pass at 1. rewrite Hw, Hpass, Hd, andb_false_r. now split.
  - intros Hs Hr Hc Hge.
    assert (Hd : due now p = true).
    { unfold due, lastRetry. rewrite Hs, Hr. cbn [expiresAt].
      rewrite andb_true_r. apply Z.geb_le. lia. }
    unfold pass at 1. rewrite Hw, Hpass, Hc, Hd. cbn [andb].
    unfold recordWrite. rewrite Hs, Hr. now repeat split.
Qed.

(** ** The dispatcher *)

Lemma onMessage_unknown_id (bytes : Uint8Array) (m : ServerMessage Result Error)
    (k : string) c :
  decode (_codec c) bytes = Some m ->
  correlationId m = Some k ->
  JsMap.get k (pending c) = None ->
  onMessage (ArrayBuffer bytes) c =
    emit (LoggerError
            (match m with
             | acknowledgeMessage _ =>
                 "failed to find request to mark it as acknowledged: %s"
             | _ => "failed to find request: %s"
             end) [ArgString k]) c.
Proof.
  intros Hd Hk Hg. unfold onMessage. rewrite Hd.
  destruct m; simpl in Hk; try discriminate;
    injection Hk as ->; now rewrite Hg.
Qed.

Lemma onMessage_result_found (bytes : Uint8Array)
    (m : ServerMessage Result Error) (k : string) (v : Settled Result Error)
    p c :
  decode (_codec c) bytes = Some m ->
  outcome m = Some (k, v) ->
  JsMap.get k (pending c) = Some p ->
  onMessage (ArrayBuffer bytes) c =
    emitAll [PendingDelete k; Resolve (resolve p) v]
      (withPending (JsMap.delete k (pending c)) c).
Proof.
  intros Hd Ho Hg. unfold onMessage. rewrite Hd.
  destruct m; simpl in Ho; try discriminate;
    injection Ho as -> <-; rewrite Hg;
    unfold emit; now rewrite emitAll_emitAll.
Qed.

Lemma onMessage_acknowledge (bytes : Uint8Array) (k : string) p c :
  decode (_codec c) bytes = Some (acknowledgeMessage k) ->
  JsMap.get k (pending c) = Some p ->
  onMessage (ArrayBuffer bytes) c =
    if acknowledged p then
      emit (LoggerError
              "tried to acknowledge an already acknowledged request: %o"
              [ArgPending p]) c
    else
      withPending (JsMap.set k (withAcknowledged true p) (pending c)) c.
Proof. intros Hd Hg. unfold onMessage. now rewrite Hd, Hg. Qed.

(** C6: an Acknowledge frame for an entry that is already acknowledged
    only adds one report to the log: the entry is still acknowledged and
    the registry, the session and the connection are what they were.
    Acknowledging is idempotent: delivering the frame a second time
    leaves the registry as the first delivery left it, with the entry
    acknowledged. *)
Theorem C6_duplicate_acknowledge (bytes : Uint8Array) (k : string) p c :
  decode (_codec c) bytes = Some (acknowledgeMessage k) ->
  JsMap.get k (pending c) = Some p ->
  let once := onMessage (ArrayBuffer bytes) c in
  let twice := onMessage (ArrayBuffer bytes) once in
  (acknowledged p = true ->
   once = emit (LoggerError
                  "tried to acknowledge an already acknowledged request: %o"
                  [ArgPending p]) c
   /\ pending once = pending c
   /\ JsMap.get k (pending once) = Some p
   /\ session once = session c /\ connection once = connection c
   /\ resolutions (effects once) = resolutions (effects c))
  /\ JsMap.get k (pending once) = Some (withAcknowledged true p)
  /\ pending twice = pending once
  /\ twice = emit (LoggerError
                     "tried to acknowledge an already acknowledged request: %o"
                     [ArgPending (withAcknowledged true p)]) once.
Proof.
  intros Hd Hg once twice.
  assert (Honce : once =
            if acknowledged p then
              emit (LoggerError
                      "tried to acknowledge an already acknowledged request: %o"
                      [ArgPending p]) c
            else withPending
                   (JsMap.set k (withAcknowledged true p) (pending c)) c)
    by (apply onMessage_acknowledge; assumption).
  assert (Hg1 : JsMap.get k (pending once) = Some (withAcknowledged true p)).
  { rewrite Honce. destruct (acknowledged p) eqn:Ha; simpl.
    - rewrite Hg. f_equal. destruct p; simpl in *. now subst.
    - apply get_set_same. }
  assert (Hd1 : decode (_codec once) bytes = Some (acknowledgeMessage k)).
  { rewrite Honce. destruct (acknowledged p); exact Hd. }
  split; [|split; [exact Hg1|]].
  - intros Ha. rewrite Honce, Ha. simpl.
    rewrite resolutions_app. simpl. rewrite app_nil_r. auto 10.
  - assert (Htwice : twice =
              emit (LoggerError
                      "tried to acknowledge an already acknowledged request: %o"
                      [ArgPending (withAcknowledged true p)]) once)
      by (unfold twice; now rewrite (@onMessage_acknowledge bytes k _ once Hd1 Hg1)).
    split; [now rewrite Htwice|exact Htwice].
Qed.

(** C8: an Acknowledge, ResultSuccess or ResultError frame whose id is
    not in the registry only adds one report to the log: the registry
    (hence every entry, field by field, resolver included), the session
    and the connection are unchanged, and no resolver is called. *)
Theorem C8_unknown_id_only_reported (bytes : Uint8Array)
    (m : ServerMessage Result Error) (k : string) c :
  decode (_codec c) bytes = Some m ->
  correlationId m = Some k ->
  JsMap.get k (pending c) = None ->
  let c' := onMessage (ArrayBuffer bytes) c in
  (exists format, c' = emit (LoggerError format [ArgString k]) c)
  /\ pending c' = pending c
  /\ session c' = session c
  /\ connection c' = connection c
  /\ resolutions (effects c') = resolutions (effects c)
  /\ sentFrames (effects c') = sentFrames (effects c).
Proof.
  intros Hd Hk Hg c'. unfold c'.
  rewrite (@onMessage_unknown_id bytes m k c Hd Hk Hg). simpl.
  rewrite resolutions_app, sentFrames_app. simpl. rewrite !app_nil_r.
  split; [eexists; reflexivity|]. auto 10.
Qed.

(** C10: a ResultSuccess or ResultError frame whose id is in the registry
    removes the entry and calls its resolver with the outcome, whatever
    the entry's state: nothing is asked of [acknowledged] or [sent]. *)
Theorem C10_result_resolves_any_entry (bytes : Uint8Array)
    (m : ServerMessage Result Error) (k : string) (v : Settled Result Error)
    p c :
  decode (_codec c) bytes = Some m ->
  outcome m = Some (k, v) ->
  JsMap.get k (pending c) = Some p ->
  let c' := onMessage (ArrayBuffer bytes) c in
  pending c' = JsMap.delete k (pending c)
  /\ JsMap.get k (pending c') = None
  /\ effects c' = effects c ++ [PendingDelete k; Resolve (resolve p) v]
  /\ resolutions (effects c') = resolutions (effects c) ++ [(resolve p, v)].
Proof.
  intros Hd Ho Hg c'. unfold c'.
  rewrite (@onMessage_result_found bytes m k v p c Hd Ho Hg). simpl.
  rewrite resolutions_app. simpl.
  repeat split; trivial. apply get_delete_same.
Qed.

(** ** Transport instances along a run

    Every handler keeps the balance between the instances constructed so
    far and the instance held; only [onClose] gives one up. *)

Lemma connect_balance c :
  (countNew (effects (connect c)) + held c
   = countNew (effects c) + held (connect c))%nat.
Proof.
  unfold connect, held. destruct (connection c) eqn:E; [now rewrite E|].
  simpl. rewrite countNew_app. unfold countNew. simpl. lia.
Qed.

Lemma sendMessageRequest_balance now c p :
  (countNew (effects (fst (sendMessageRequest now c p))) + held c
   = countNew (effects c) + held (fst (sendMessageRequest now c p)))%nat.
Proof.
  rewrite sendMessageRequest_spec.
  destruct (ensureSession_connection c) as (Hc & _ & _ & _ & _ & He & _).
  destruct (isConnected c); [destruct (due now p)|]; cbn [fst].
  - unfold held, emit, emitAll. cbn [effects connection].
    rewrite Hc, He, countNew_app. unfold countNew. simpl. lia.
  - unfold held. now rewrite Hc, He.
  - apply connect_balance.
Qed.

Lemma driveEntries_balance now (m : JsMap.t TPending) : forall c,
  (countNew (effects (fst (driveEntries now c m))) + held c
   = countNew (effects c) + held (fst (driveEntries now c m)))%nat.
Proof.
  induction m as [|[k p] m IH]; intros c; [reflexivity|].
  cbn [driveEntries].
  pose proof (sendMessageRequest_balance now c p) as H1.
  destruct (sendMessageRequest now c p) as [c1 p1]. cbn [fst] in H1.
  specialize (IH c1). destruct (driveEntries now c1 m) as [c2 m2].
  cbn [fst] in *. lia.
Qed.

Lemma onMessage_shape (data : unknown) c :
  exists (m : JsMap.t TPending) (es : list TEffect),
    onMessage data c = withPending m (emitAll es c)
    /\ countNew es = 0%nat /\ sentFrames es = [].
Proof.
  assert (Hid : forall d : TClient, d = withPending (pending d) (emitAll [] d))
    by (intros d; rewrite emitAll_nil; now destruct d).
  assert (Hemit : forall (e : TEffect) (d : TClient),
            emit e d = withPending (pending d) (emitAll [e] d))
    by (intros e d; now destruct d).
  unfold onMessage. destruct data as [bytes|text].
  2:{ exists (pending c), []. now rewrite <- Hid. }
  destruct (decode (_codec c) bytes) as [[k|t|k err|k res|n]|].
  - destruct (JsMap.get k (pending c)) as [p|].
    + destruct (acknowledged p).
      * eexists _, [_]. rewrite Hemit. now repeat split.
      * eexists _, []. rewrite emitAll_nil. now repeat split.
    + eexists _, [_]. rewrite Hemit. now repeat split.
  - eexists _, [_]. rewrite Hemit. now repeat split.
  - destruct (JsMap.get k (pending c)) as [p|].
    + eexists _, [_; _]. unfold emit. rewrite emitAll_emitAll.
      now repeat split.
    + eexists _, [_]. rewrite Hemit. now repeat split.
  - destruct (JsMap.get k (pending c)) as [p|].
    + eexists _, [_; _]. unfold emit. rewrite emitAll_emitAll.
      now repeat split.
    + eexists _, [_]. rewrite Hemit. now repeat split.
  - eexists _, [_]. rewrite Hemit. now repeat split.
  - eexists _, [_]. rewrite Hemit. now repeat split.
Qed.

Lemma sendMessage_unfold now (req : Request) (o : option number) c :
  sendMessage now req o c =
    (promises c,
     let pass :=
       sendMessageRequest now (registered req o c) (newEntry req o c) in
     withPending
       (JsMap.set (Long_toString (requestId (newEntry req o c))) (snd pass)
          (pending (fst pass)))
       (fst pass)).
Proof.
  unfold sendMessage, randomLong. cbv beta iota zeta.
  match goal with
  | |- context [sendMessageRequest now ?a ?b] =>
      change a with (registered req o c); change b with (newEntry req o c)
  end.
  now destruct (sendMessageRequest now (registered req o c) (newEntry req o c)).
Qed.

Lemma step_balance c (i : TInput) :
  (countNew (effects (step c i)) + held c
   <= countNew (effects c) + held (step c i)
      + (if isFireClose i then 1 else 0))%nat.
Proof.
  destruct i as [now req o|state|now|e|args|data]; cbn [step isFireClose].
  - rewrite sendMessage_unfold. cbn [snd].
    pose proof (sendMessageRequest_balance now (registered req o c)
                  (newEntry req o c)) as H.
    destruct (sendMessageRequest now (registered req o c) (newEntry req o c))
      as [c3 p3].
    cbn [fst snd] in *.
    assert (countNew (effects (registered req o c)) = countNew (effects c))
      as E1
      by (unfold registered; simpl; rewrite countNew_app; unfold countNew;
          simpl; lia).
    assert (held (registered req o c) = held c) as E2 by reflexivity.
    change (held (withPending _ c3)) with (held c3).
    change (effects (withPending _ c3)) with (effects c3). lia.
  - unfold setReadyState, held. destruct (connection c) eqn:E; simpl.
    + lia.
    + rewrite E. lia.
  - unfold onOpen, checkPendingRequests.
    pose proof (driveEntries_balance now (pending c) c) as H.
    destruct (driveEntries now c (pending c)) as [c1 m1]. cbn [fst] in H.
    change (held (withPending m1 c1)) with (held c1).
    change (effects (withPending m1 c1)) with (effects c1). lia.
  - rewrite onClose_spec. unfold held. simpl. rewrite countNew_app.
    unfold countNew. simpl. destruct (connection c); lia.
  - unfold onError, held. simpl. rewrite countNew_app.
    unfold countNew. simpl. lia.
  - destruct (onMessage_shape data c) as (m & es & -> & Hn & _).
    unfold held. simpl. rewrite countNew_app. lia.
Qed.

Lemma run_balance (inputs : list TInput) : forall c,
  (countNew (effects (run c inputs)) + held c
   <= countNew (effects c) + held (run c inputs)
      + List.length (filter isFireClose inputs))%nat.
Proof.
  induction inputs as [|i l IH]; intros c; [simpl; lia|].
  change (run c (i :: l)) with (run (step c i) l).
  specialize (IH (step c i)). pose proof (step_balance c i) as H.
  cbn [filter]. destruct (isFireClose i); cbn [List.length] in *; lia.
Qed.

(** C7: [#connect] does nothing when an instance is already held, open
    or not; a pass started while not connected does what [#connect]
    does and nothing else, so it writes no frame; and along any run of a
    new client the instances constructed never exceed the close events
    received plus the one instance held. *)
Theorem C7_single_transport (options : IClientOptions Request Result Error)
    (inputs : list TInput) now c p (ws : IWebSocket) :
  let final := run (newClient options) inputs in
  (connection c = Some ws -> connect c = c)
  /\ (isConnected c = false ->
      sendMessageRequest now c p = (connect c, p)
      /\ sentFrames (effects (connect c)) = sentFrames (effects c))
  /\ (countNew (effects final)
      <= List.length (filter isFireClose inputs) + held final)%nat.
Proof.
  intros final. split; [apply connect_present|]. split.
  - intros Hc. rewrite sendMessageRequest_spec, Hc. split; [reflexivity|].
    unfold connect. destruct (connection c); [reflexivity|]. simpl.
    rewrite sentFrames_app. simpl. now rewrite app_nil_r.
  - pose proof (run_balance inputs (newClient options)) as H.
    change (countNew (effects (newClient options))) with 0%nat in H.
    change (held (newClient options)) with 0%nat in H.
    fold final in H. lia.
Qed.

(** ** Resolvers along a run *)

Lemma resolversOf_set_in (k : string) (v : TPending) (m : JsMap.t TPending)
    (x : nat) :
  In x (resolversOf (JsMap.set k v m)) ->
  x = resolve v \/ In x (resolversOf m).
Proof.
  induction m as [|[k0 v0] m IH]; simpl.
  - intros [H|[]]. now left.
  - destruct (String.eqb k k0); simpl.
    + intros [H|H]; [now left|now right; right].
    + intros [H|H]; [now right; left|].
      destruct (IH H); [now left|now right; right].
Qed.

Lemma resolversOf_set_NoDup (k : string) (v : TPending)
    (m : JsMap.t TPending) :
  NoDup (resolversOf m) -> ~ In (resolve v) (resolversOf m) ->
  NoDup (resolversOf (JsMap.set k v m)).
Proof.
  induction m as [|[k0 v0] m IH]; simpl; intros Hn Hv.
  - constructor; [intros []|constructor].
  - inversion Hn as [|? ? Hx Hm]; subst.
    destruct (String.eqb k k0); simpl.
    + constructor; [tauto|exact Hm].
    + constructor.
      * intros Hin. apply resolversOf_set_in in Hin. tauto.
      * apply IH; tauto.
Qed.

Lemma resolversOf_set_same (k : string) (v p : TPending)
    (m : JsMap.t TPending) :
  JsMap.get k m = Some p -> resolve v = resolve p ->
  resolversOf (JsMap.set k v m) = resolversOf m.
Proof.
  intros Hg Hr. induction m as [|[k0 v0] m IH]; simpl in *; [discriminate|].
  destruct (String.eqb k k0); simpl.
  - injection Hg as ->. now rewrite Hr.
  - now rewrite IH.
Qed.

Lemma resolversOf_delete_in (k : string) (m : JsMap.t TPending) (x : nat) :
  In x (resolversOf (JsMap.delete k m)) -> In x (resolversOf m).
Proof.
  induction m as [|[k0 v0] m IH]; simpl; [tauto|].
  destruct (String.eqb k k0); simpl; tauto.
Qed.

Lemma resolversOf_delete_NoDup (k : string) (m : JsMap.t TPending) :
  NoDup (resolversOf m) -> NoDup (resolversOf (JsMap.delete k m)).
Proof.
  induction m as [|[k0 v0] m IH]; simpl; intros Hn; [constructor|].
  inversion Hn as [|? ? Hx Hm]; subst.
  destruct (String.eqb k k0); simpl; [now apply IH|].
  constructor; [|now apply IH].
  intros Hin. now apply resolversOf_delete_in in Hin.
Qed.

Lemma get_resolver_in (k : string) p (m : JsMap.t TPending) :
  JsMap.get k m = Some p -> In (resolve p) (resolversOf m).
Proof.
  induction m as [|[k0 v0] m IH]; simpl; [discriminate|].
  destruct (String.eqb k k0).
  - intros [= ->]. now left.
  - intros H. right. now apply IH.
Qed.

Lemma resolversOf_delete_gone (k : string) p (m : JsMap.t TPending) :
  JsMap.get k m = Some p -> NoDup (resolversOf m) ->
  ~ In (resolve p) (resolversOf (JsMap.delete k m)).
Proof.
  induction m as [|[k0 v0] m IH]; simpl; [discriminate|].
  intros Hg Hn. inversion Hn as [|? ? Hx Hm]; subst.
  destruct (String.eqb k k0); simpl.
  - injection Hg as ->. intros Hin. now apply resolversOf_delete_in in Hin.
  - intros [Heq|Hin]; [|now apply IH].
    apply Hx. rewrite Heq. now apply get_resolver_in with (k := k).
Qed.

Lemma driveEntries_frame now (m : JsMap.t TPending) : forall c,
  pending (fst (driveEntries now c m)) = pending c
  /\ promises (fst (driveEntries now c m)) = promises c
  /\ resolutions (effects (fst (driveEntries now c m)))
     = resolutions (effects c)
  /\ resolversOf (snd (driveEntries now c m)) = resolversOf m.
Proof.
  induction m as [|[k p] m IH]; intros c; [now repeat split|].
  cbn [driveEntries].
  destruct (sendMessageRequest_frame now c p)
    as (Hp & Hn & _ & _ & Hr & Hres & _).
  destruct (sendMessageRequest now c p) as [c1 p1]. cbn [fst snd] in *.
  destruct (IH c1) as (Hp2 & Hn2 & Hr2 & Hres2).
  destruct (driveEntries now c1 m) as [c2 m2]. cbn [fst snd] in *.
  repeat split; try congruence.
  unfold resolversOf in *. simpl. congruence.
Qed.

Lemma singleUse_same c c' :
  resolversOf (pending c') = resolversOf (pending c) ->
  resolutions (effects c') = resolutions (effects c) ->
  promises c' = promises c ->
  singleUse c -> singleUse c'.
Proof.
  unfold singleUse, resolved. now intros -> -> ->.
Qed.

Lemma singleUse_sendMessage now (req : Request) (o : option number) c :
  singleUse c -> singleUse (snd (sendMessage now req o c)).
Proof.
  intros (Hn & Hd & Hin & Hlt). rewrite sendMessage_unfold. cbn [snd].
  destruct (sendMessageRequest_frame now (registered req o c)
              (newEntry req o c)) as (Hp & Hpr & _ & _ & Hr & Hres & _).
  destruct (sendMessageRequest now (registered req o c) (newEntry req o c))
    as [c3 p3]. cbn [fst snd] in *.
  assert (Hreg : resolutions (effects (registered req o c))
                 = resolutions (effects c)).
  { unfold registered. simpl. rewrite resolutions_app. simpl.
    now rewrite app_nil_r. }
  assert (Hset : resolversOf
                   (JsMap.set (Long_toString (requestId (newEntry req o c)))
                      p3 (pending c3))
                 = resolversOf
                     (JsMap.set (Long_toString (requestId (newEntry req o c)))
                        (newEntry req o c) (pending c))).
  { rewrite Hp. unfold registered at 1. cbn [pending emit emitAll withPending].
    apply resolversOf_set_same with (p := newEntry req o c);
      [apply get_set_same|exact Hres]. }
  assert (Hfresh : ~ In (promises c) (resolversOf (pending c))).
  { intros H. apply Hin in H. lia. }
  unfold singleUse, resolved. cbn [pending effects promises withPending].
  rewrite Hset, Hr, Hreg, Hpr. cbn [registered promises emit emitAll
    withPending withRandomDraws withPromises].
  split; [|split; [exact Hd|split]].
  - apply resolversOf_set_NoDup; [exact Hn|exact Hfresh].
  - intros r Hr'. apply resolversOf_set_in in Hr'. cbn [resolve newEntry] in Hr'.
    destruct Hr' as [->|Hr'].
    + split; [lia|]. intros H. apply Hlt in H. lia.
    + destruct (Hin r Hr'). split; [lia|assumption].
  - intros r Hr'. apply Hlt in Hr'. lia.
Qed.

Lemma singleUse_onMessage (data : unknown) c :
  singleUse c -> singleUse (onMessage data c).
Proof.
  intros Hs.
  assert (Hlog : forall (f : string) (a : list (LogArg Request Result Error)),
            singleUse (emit (LoggerError f a) c)).
  { intros f a. apply singleUse_same with (c := c); trivial.
    simpl. rewrite resolutions_app. simpl. now rewrite app_nil_r. }
  assert (Hres : forall (k : string) p (v : Settled Result Error),
            JsMap.get k (pending c) = Some p ->
            singleUse (emit (Resolve (resolve p) v)
                         (emit (PendingDelete k)
                            (withPending (JsMap.delete k (pending c)) c)))).
  { intros k p v Hg. destruct Hs as (Hn & Hd & Hin & Hlt).
    pose proof (get_resolver_in k (pending c) Hg) as Hp.
    unfold singleUse, resolved in *.
    cbn [pending effects promises emit emitAll withPending].
    rewrite !resolutions_app. cbn [resolutions]. rewrite app_nil_r, map_app.
    cbn [map fst].
    split; [now apply resolversOf_delete_NoDup|]. split; [|split].
    - apply NoDup_app; [exact Hd|constructor; [intros []|constructor]|].
      intros x Hx [Heq|[]]. subst x. now apply (Hin _ Hp).
    - intros r Hr. pose proof (resolversOf_delete_in _ _ _ Hr) as Hr0.
      destruct (Hin r Hr0) as [H1 H2]. split; [exact H1|].
      intros H. apply in_app_or in H. destruct H as [H|[<-|[]]]; [tauto|].
      now apply (resolversOf_delete_gone k (pending c) Hg Hn).
    - intros r H. apply in_app_or in H.
      destruct H as [H|[<-|[]]]; [now apply Hlt|now apply (Hin _ Hp)]. }
  unfold onMessage. destruct data as [bytes|text]; [|exact Hs].
  destruct (decode (_codec c) bytes) as [[k|t|k err|k res|n]|];
    try apply Hlog.
  - destruct (JsMap.get k (pending c)) as [p|] eqn:Hg; [|apply Hlog].
    destruct (acknowledged p); [apply Hlog|].
    apply singleUse_same with (c := c); trivial.
    cbn [pending withPending].
    now apply resolversOf_set_same with (p := p).
  - destruct (JsMap.get k (pending c)) as [p|] eqn:Hg; [|apply Hlog].
    now apply Hres.
  - destruct (JsMap.get k (pending c)) as [p|] eqn:Hg; [|apply Hlog].
    now apply Hres.
Qed.

Lemma singleUse_step c (i : TInput) : singleUse c -> singleUse (step c i).
Proof.
  intros Hs. destruct i as [now req o|state|now|e|args|data]; cbn [step].
  - now apply singleUse_sendMessage.
  - apply singleUse_same with (c := c); trivial;
      unfold setReadyState; now destruct (connection c).
  - unfold onOpen, checkPendingRequests.
    destruct (driveEntries_frame now (pending c) c) as (_ & Hn & Hr & Hres).
    destruct (driveEntries now c (pending c)) as [c1 m1]. cbn [fst snd] in *.
    now apply singleUse_same with (c := c).
  - apply singleUse_same with (c := c); trivial.
    rewrite onClose_spec. simpl. rewrite resolutions_app. simpl.
    now rewrite app_nil_r.
  - apply singleUse_same with (c := c); trivial.
    unfold onError. simpl. rewrite resolutions_app. simpl.
    now rewrite app_nil_r.
  - now apply singleUse_onMessage.
Qed.

Lemma singleUse_run (inputs : list TInput) : forall c,
  singleUse c -> singleUse (run c inputs).
Proof.
  induction inputs as [|i l IH]; intros c Hs; [exact Hs|].
  change (run c (i :: l)) with (run (step c i) l).
  apply IH. now apply singleUse_step.
Qed.

Lemma singleUse_newClient (options : IClientOptions Request Result Error) :
  singleUse (newClient options).
Proof.
  unfold singleUse, resolved. simpl.
  split; [constructor|]. split; [constructor|].
  split; intros r [].
Qed.

(** The trace only grows. *)
Lemma sendMessageRequest_extends now c p :
  exists es, effects (fst (sendMessageRequest now c p)) = effects c ++ es.
Proof.
  rewrite sendMessageRequest_spec.
  destruct (ensureSession_connection c) as (_ & _ & _ & _ & _ & He & _).
  destruct (isConnected c); [destruct (due now p)|]; cbn [fst].
  - eexists. unfold emit, emitAll. cbn [effects]. now rewrite He.
  - exists []. now rewrite He, app_nil_r.
  - unfold connect. destruct (connection c).
    + exists []. now rewrite app_nil_r.
    + eexists. reflexivity.
Qed.

Lemma driveEntries_extends now (m : JsMap.t TPending) : forall c,
  exists es, effects (fst (driveEntries now c m)) = effects c ++ es.
Proof.
  induction m as [|[k p] m IH]; intros c.
  - exists []. simpl. now rewrite app_nil_r.
  - cbn [driveEntries].
    destruct (sendMessageRequest_extends now c p) as [es1 H1].
    destruct (sendMessageRequest now c p) as [c1 p1]. cbn [fst] in H1.
    destruct (IH c1) as [es2 H2].
    destruct (driveEntries now c1 m) as [c2 m2]. cbn [fst] in *.
    exists (es1 ++ es2). now rewrite H2, H1, app_assoc.
Qed.

Lemma step_extends c (i : TInput) :
  exists es, effects (step c i) = effects c ++ es.
Proof.
  destruct i as [now req o|state|now|e|args|data]; cbn [step].
  - rewrite sendMessage_unfold. cbn [snd].
    destruct (sendMessageRequest_extends now (registered req o c)
                (newEntry req o c)) as [es H].
    destruct (sendMessageRequest now (registered req o c) (newEntry req o c))
      as [c3 p3]. cbn [fst snd effects withPending] in *.
    rewrite H. unfold registered. cbn [effects emit emitAll].
    rewrite <- app_assoc. eexists. reflexivity.
  - exists []. rewrite app_nil_r. unfold setReadyState.
    now destruct (connection c).
  - unfold onOpen, checkPendingRequests.
    destruct (driveEntries_extends now (pending c) c) as [es H].
    destruct (driveEntries now c (pending c)) as [c1 m1].
    now exists es.
  - rewrite onClose_spec. eexists. reflexivity.
  - eexists. reflexivity.
  - destruct (onMessage_shape data c) as (m & es & -> & _).
    now exists es.
Qed.

Lemma run_extends (inputs : list TInput) : forall c,
  exists es, effects (run c inputs) = effects c ++ es.
Proof.
  induction inputs as [|i l IH]; intros c.
  - exists []. simpl. now rewrite app_nil_r.
  - change (run c (i :: l)) with (run (step c i) l).
    destruct (IH (step c i)) as [es2 H2].
    destruct (step_extends c i) as [es1 H1].
    exists (es1 ++ es2). now rewrite H2, H1, app_assoc.
Qed.

Lemma run_app (a b : list TInput) c : run c (a ++ b) = run (run c a) b.
Proof. unfold run. apply fold_left_app. Qed.

(** C2 (as amended): in any run of a new client, a result frame for an id
    in the registry first deletes the entry and then calls its resolver,
    once; that resolver had not been called before, no entry holding it
    is left in the registry, and whatever happens afterwards it is never
    called again: it is in the list of resolver calls exactly once. *)
Theorem C2_resolved_once_after_removal
    (options : IClientOptions Request Result Error)
    (inputs more : list TInput) (bytes : Uint8Array)
    (m : ServerMessage Result Error) (k : string)
    (v : Settled Result Error) p :
  let c := run (newClient options) inputs in
  decode (_codec c) bytes = Some m ->
  outcome m = Some (k, v) ->
  JsMap.get k (pending c) = Some p ->
  let c1 := onMessage (ArrayBuffer bytes) c in
  effects c1 = effects c ++ [PendingDelete k; Resolve (resolve p) v]
  /\ JsMap.get k (pending c1) = None
  /\ ~ In (resolve p) (resolved c)
  /\ ~ In (resolve p) (resolversOf (pending c1))
  /\ count_occ Nat.eq_dec (resolved (run c1 more)) (resolve p) = 1%nat.
Proof.
  intros c Hd Ho Hg c1.
  assert (Hc : singleUse c)
    by (apply singleUse_run, singleUse_newClient).
  assert (H1 : c1 = emitAll [PendingDelete k; Resolve (resolve p) v]
                      (withPending (JsMap.delete k (pending c)) c))
    by (now apply onMessage_result_found with (m := m)).
  assert (Hfinal : singleUse (run c1 more)).
  { replace (run c1 more)
      with (run (newClient options)
              (inputs ++ FireMessage (ArrayBuffer bytes) :: more)).
    - apply singleUse_run, singleUse_newClient.
    - rewrite run_app. reflexivity. }
  destruct Hc as (Hn & _ & Hin & _).
  split; [now rewrite H1|]. split; [rewrite H1; apply get_delete_same|].
  split; [apply (Hin _ (get_resolver_in k (pending c) Hg))|].
  split.
  - rewrite H1. now apply resolversOf_delete_gone.
  - destruct Hfinal as (_ & Hnd & _).
    apply NoDup_count_occ'; [exact Hnd|].
    destruct (run_extends more c1) as [es He].
    unfold resolved. rewrite He, H1. cbn [effects emitAll withPending].
    rewrite !resolutions_app, !map_app. cbn [resolutions map fst].
    apply in_or_app. left. apply in_or_app. right. now left.
Qed.

(** ** [maxRetryCount] is carried along, never read

    Blanking [maxRetryCount] commutes with every handler. *)

Lemma eraseEntries_idem (m : JsMap.t TPending) :
  eraseEntries (eraseEntries m) = eraseEntries m.
Proof. unfold eraseEntries. rewrite map_map. reflexivity. Qed.

Lemma eraseEffect_idem (e : TEffect) :
  eraseEffect (eraseEffect e) = eraseEffect e.
Proof.
  destruct e; simpl; trivial. f_equal. rewrite map_map.
  apply map_ext. now intros [].
Qed.

Lemma eraseClient_idem c : eraseClient (eraseClient c) = eraseClient c.
Proof.
  unfold eraseClient. simpl. rewrite eraseEntries_idem, map_map. f_equal.
  apply map_ext, eraseEffect_idem.
Qed.

Lemma get_erase (k : string) (m : JsMap.t TPending) :
  JsMap.get k (eraseEntries m)
  = option_map (@withoutMaxRetryCount Request) (JsMap.get k m).
Proof.
  induction m as [|[k0 v0] m IH]; simpl; [reflexivity|].
  now destruct (String.eqb k k0).
Qed.

Lemma set_erase (k : string) p (m : JsMap.t TPending) :
  eraseEntries (JsMap.set k p m)
  = JsMap.set k (withoutMaxRetryCount p) (eraseEntries m).
Proof.
  induction m as [|[k0 v0] m IH]; simpl; [reflexivity|].
  destruct (String.eqb k k0); simpl; [reflexivity|now rewrite IH].
Qed.

Lemma delete_erase (k : string) (m : JsMap.t TPending) :
  eraseEntries (JsMap.delete k m) = JsMap.delete k (eraseEntries m).
Proof.
  induction m as [|[k0 v0] m IH]; simpl; [reflexivity|].
  destruct (String.eqb k k0); simpl; [exact IH|now rewrite IH].
Qed.

Lemma emitAll_erase (es : list TEffect) c :
  eraseClient (emitAll es c) = emitAll (map eraseEffect es) (eraseClient c).
Proof. unfold eraseClient, emitAll. simpl. now rewrite map_app. Qed.

Lemma withConnection_erase (w : option IWebSocket) c :
  eraseClient (withConnection w c) = withConnection w (eraseClient c).
Proof. reflexivity. Qed.

Lemma connect_erase c : connect (eraseClient c) = eraseClient (connect c).
Proof.
  unfold connect. change (connection (eraseClient c)) with (connection c).
  destruct (connection c); [reflexivity|].
  unfold emit, eraseClient, withConnection, emitAll. simpl.
  now rewrite map_app.
Qed.

Lemma ensureSession_erase c :
  ensureSession (eraseClient c)
  = (fst (ensureSession c), eraseClient (snd (ensureSession c))).
Proof.
  unfold ensureSession. change (session (eraseClient c)) with (session c).
  now destruct (session c).
Qed.

Lemma sendMessageRequest_erase now c p :
  sendMessageRequest now (eraseClient c) (withoutMaxRetryCount p)
  = (eraseClient (fst (sendMessageRequest now c p)),
     withoutMaxRetryCount (snd (sendMessageRequest now c p))).
Proof.
  rewrite !sendMessageRequest_spec.
  change (isConnected (eraseClient c)) with (isConnected c).
  change (due now (withoutMaxRetryCount p)) with (due now p).
  rewrite ensureSession_erase. cbn [fst snd].
  destruct (isConnected c); [destruct (due now p)|]; cbn [fst snd].
  - unfold emit. rewrite emitAll_erase. f_equal.
    unfold recordWrite. cbn [sent withoutMaxRetryCount].
    now destruct (sent p).
  - reflexivity.
  - now rewrite connect_erase.
Qed.

Lemma driveEntries_erase now (m : JsMap.t TPending) : forall c,
  driveEntries now (eraseClient c) (eraseEntries m)
  = (eraseClient (fst (driveEntries now c m)),
     eraseEntries (snd (driveEntries now c m))).
Proof.
  induction m as [|[k p] m IH]; intros c; [reflexivity|].
  cbn [driveEntries eraseEntries map fst snd].
  rewrite sendMessageRequest_erase.
  destruct (sendMessageRequest now c p) as [c1 p1]. cbn [fst snd].
  fold (eraseEntries m). rewrite IH.
  now destruct (driveEntries now c1 m) as [c2 m2].
Qed.

Lemma onOpen_erase now c :
  eraseClient (onOpen now c) = onOpen now (eraseClient c).
Proof.
  unfold onOpen, checkPendingRequests.
  change (pending (eraseClient c)) with (eraseEntries (pending c)).
  rewrite driveEntries_erase.
  now destruct (driveEntries now c (pending c)) as [c1 m1].
Qed.

Lemma onMessage_erase (data : unknown) c :
  eraseClient (onMessage data c) = onMessage data (eraseClient c).
Proof.
  assert (Hemit : forall (e : TEffect) (d : TClient),
            eraseClient (emit e d) = emit (eraseEffect e) (eraseClient d))
    by (intros e d; unfold emit; apply emitAll_erase).
  unfold onMessage. destruct data as [bytes|text]; [|reflexivity].
  change (_codec (eraseClient c)) with (_codec c).
  change (pending (eraseClient c)) with (eraseEntries (pending c)).
  destruct (decode (_codec c) bytes) as [[k|t|k err|k res|n]|];
    try (rewrite Hemit; reflexivity).
  - rewrite get_erase. destruct (JsMap.get k (pending c)) as [p|];
      cbn [option_map]; [|rewrite Hemit; reflexivity].
    change (acknowledged (withoutMaxRetryCount p)) with (acknowledged p).
    destruct (acknowledged p); [rewrite Hemit; reflexivity|].
    unfold eraseClient, withPending. simpl. now rewrite set_erase.
  - rewrite get_erase. destruct (JsMap.get k (pending c)) as [p|];
      cbn [option_map]; [|rewrite Hemit; reflexivity].
    rewrite !Hemit. unfold eraseClient, withPending. simpl.
    now rewrite delete_erase.
  - rewrite get_erase. destruct (JsMap.get k (pending c)) as [p|];
      cbn [option_map]; [|rewrite Hemit; reflexivity].
    rewrite !Hemit. unfold eraseClient, withPending. simpl.
    now rewrite delete_erase.
Qed.

Lemma sendMessage_erase now (req : Request) (o o' : option number) c :
  eraseClient (snd (sendMessage now req o c))
  = eraseClient (snd (sendMessage now req o' (eraseClient c))).
Proof.
  assert (Hhalf : forall (o1 : option number) (d : TClient),
            eraseClient (snd (sendMessage now req o1 d)) =
            let pass :=
              sendMessageRequest now (eraseClient (registered req o1 d))
                (withoutMaxRetryCount (newEntry req o1 d)) in
            withPending
              (JsMap.set (Long_toString (requestId (newEntry req o1 d)))
                 (snd pass) (pending (fst pass)))
              (fst pass)).
  { intros o1 d. rewrite sendMessage_unfold, sendMessageRequest_erase.
    cbn [snd fst]. cbv zeta.
    destruct (sendMessageRequest now (registered req o1 d) (newEntry req o1 d))
      as [c3 p3]. cbn [fst snd].
    unfold eraseClient at 1, withPending. simpl. now rewrite set_erase. }
  rewrite !Hhalf.
  assert (Hreg : eraseClient (registered req o' (eraseClient c))
                 = eraseClient (registered req o c)).
  { unfold registered, emit. rewrite !emitAll_erase.
    unfold eraseClient, withPending, withRandomDraws, withPromises, emitAll.
    simpl. rewrite !set_erase, eraseEntries_idem, map_map.
    do 2 f_equal. apply map_ext, eraseEffect_idem. }
  rewrite Hreg. reflexivity.
Qed.

Lemma step_erase c (i : TInput) :
  eraseClient (step c i) = eraseClient (step (eraseClient c) (eraseInput i)).
Proof.
  destruct i as [now req o|state|now|e|args|data]; cbn [step eraseInput].
  - apply sendMessage_erase.
  - unfold setReadyState. change (connection (eraseClient c)) with (connection c).
    destruct (connection c); [|now rewrite eraseClient_idem].
    now rewrite !withConnection_erase, eraseClient_idem.
  - now rewrite <- onOpen_erase, eraseClient_idem.
  - rewrite !onClose_spec, !withConnection_erase, !emitAll_erase.
    now rewrite eraseClient_idem.
  - unfold onError, emit. now rewrite !emitAll_erase, eraseClient_idem.
  - now rewrite <- onMessage_erase, eraseClient_idem.
Qed.

(** Two runs from states equal up to [maxRetryCount], over inputs equal
    up to [maxRetryCount], end in states equal up to [maxRetryCount]. *)
Lemma run_erase (inputs1 : list TInput) : forall (inputs2 : list TInput) c d,
  eraseClient c = eraseClient d ->
  map eraseInput inputs1 = map eraseInput inputs2 ->
  eraseClient (run c inputs1) = eraseClient (run d inputs2).
Proof.
  induction inputs1 as [|i l IH]; intros [|j l2] c d Hcd Hmap;
    try discriminate; [exact Hcd|].
  injection Hmap as Hij Hl.
  change (run c (i :: l)) with (run (step c i) l).
  change (run d (j :: l2)) with (run (step d j) l2).
  apply IH; [|exact Hl].
  now rewrite (step_erase c i), (step_erase d j), Hcd, Hij.
Qed.

Lemma sentFrames_erase (trace : list TEffect) :
  sentFrames (map eraseEffect trace) = sentFrames trace.
Proof.
  induction trace as [|e l IH]; simpl; [reflexivity|].
  destruct e; simpl; now rewrite IH.
Qed.

Lemma resolutions_erase (trace : list TEffect) :
  resolutions (map eraseEffect trace) = resolutions trace.
Proof.
  induction trace as [|e l IH]; simpl; [reflexivity|].
  destruct e; simpl; now rewrite IH.
Qed.

(** C5: [maxRetryCount] is stored and never consulted.  Two runs from
    the same state whose inputs differ only in the [maxRetryCount] given
    to [sendMessage] write the same frames, call the same resolvers with
    the same values, and end with registries equal in everything but
    [maxRetryCount] (same keys, same [sent], same retry records, same
    flags), under the same session and connection.  A pass gives the same
    result whatever [maxRetryCount] holds, and a pass on an open
    transport for an entry whose attempts have all expired writes and
    records one more retry however many retries the entry already has. *)
Theorem C5_maxRetryCount_never_consulted (inputs1 inputs2 : list TInput)
    now c p (n : number) :
  map eraseInput inputs1 = map eraseInput inputs2 ->
  let one := run c inputs1 in
  let two := run c inputs2 in
  let pass := sendMessageRequest now c p in
  sentFrames (effects one) = sentFrames (effects two)
  /\ resolutions (effects one) = resolutions (effects two)
  /\ eraseEntries (pending one) = eraseEntries (pending two)
  /\ session one = session two
  /\ connection one = connection two
  /\ sendMessageRequest now c (withMaxRetryCount n p)
     = (fst pass, withMaxRetryCount n (snd pass))
  /\ (isConnected c = true -> due now p = true -> sent p <> None ->
      sentFrames (effects (fst pass))
      = sentFrames (effects c) ++ [frameOf c (fst (ensureSession c)) p]
      /\ retries (snd pass)
         = retries p
           ++ [{| date := now; expiresAt := now + 10000 |}]).
Proof.
  intros Hmap one two pass.
  assert (H : eraseClient one = eraseClient two)
    by (now apply run_erase).
  split; [|split; [|split; [|split; [|split; [|split]]]]].
  - rewrite <- (sentFrames_erase (effects one)),
      <- (sentFrames_erase (effects two)).
    now apply (f_equal (fun d => sentFrames (effects d))) in H.
  - rewrite <- (resolutions_erase (effects one)),
      <- (resolutions_erase (effects two)).
    now apply (f_equal (fun d => resolutions (effects d))) in H.
  - now apply (f_equal (@pending _ _ _)) in H.
  - now apply (f_equal (@session _ _ _)) in H.
  - now apply (f_equal (@connection _ _ _)) in H.
  - unfold pass. rewrite !sendMessageRequest_spec.
    change (due now (withMaxRetryCount n p)) with (due now p).
    destruct (isConnected c); [destruct (due now p)|]; cbn [fst snd];
      trivial.
    f_equal. unfold recordWrite. cbn [sent withMaxRetryCount].
    now destruct (sent p).
  - intros Hc Hd Hs. unfold pass. rewrite sendMessageRequest_frames.
    rewrite sendMessageRequest_spec, Hc, Hd. cbn [andb snd].
    split; [reflexivity|]. unfold recordWrite.
    destruct (sent p); [reflexivity|congruence].
Qed.

End Properties.

(** ** The logging facade *)

Section FacadeProperties.

Variables Request Result Error objectId Converted : Type.
Variable convert : unknown -> Converted.
Variable AddPageLine : list Converted -> objectId -> LineType -> Request.

Local Abbreviation TLogger := (LoggerNetwork Request Result Error objectId).

(** With no page id, the chain runs to its end without the client. *)
Lemma runChain_no_page (revision : Revision) (now : DateTime)
    (jobs : list (LineType * list unknown)) :
  forall (c : Client Request Result Error) (out : list (SuperCall Result Error)),
  runChain convert AddPageLine revision now None jobs c out
  = ([], None, c,
     out ++ List.concat (map (fun _ => noPageId Result Error revision) jobs)).
Proof.
  induction jobs as [|[lineType args] rest IH]; intros c out.
  - simpl. now rewrite app_nil_r.
  - cbn [runChain map List.concat]. rewrite IH. now rewrite app_assoc.
Qed.

(** C9: when the page id has resolved to null, storing a line and
    letting the chain run never calls [sendMessage]: the client is left
    exactly as it was (no entry registered, no promise created, no frame
    written, nothing logged as a network error), the callback of that
    line returns at once, and the chain goes on through every line
    queued, before or after it, until it is empty.  Locally, the first
    revision prints one message per line and the second prints nothing. *)
Theorem C9_no_page_id_is_local (revision : Revision) (now : DateTime)
    (lineType : LineType) (args : list unknown) (l : TLogger)
    (later : list (LineType * list unknown)) :
  pageId l = Some None ->
  awaiting l = None ->
  let stored := store lineType args l in
  let l' := pump convert AddPageLine revision now stored in
  client l' = client l
  /\ chain l' = []
  /\ awaiting l' = None
  /\ console l'
     = console l
       ++ List.concat (map (fun _ => noPageId Result Error revision)
                    (chain l ++ [(lineType, args)]))
  /\ (forall c out,
        runChain convert AddPageLine revision now None
          ((lineType, args) :: later) c out
        = runChain convert AddPageLine revision now None later c
            (out ++ noPageId Result Error revision)).
Proof.
  intros Hpage Hawait stored l'. subst l' stored.
  unfold pump, store. cbn [pageId awaiting chain client console].
  rewrite Hpage, Hawait, runChain_no_page.
  cbn [client chain awaiting console]. repeat split.
Qed.

End FacadeProperties.

(** ** The properties on the sample client *)

Import Sample.

Ltac evaluated := vm_compute; reflexivity.

(** C1, as stated, fails: the request of [oneSent] went out under
    session 2; after a close, the session is still session 2, and the
    frame re-sent at 10 s on the replacement transport is the same frame,
    under session 2 again. *)
Lemma C1_session_survives_close :
  sentFrames (effects oneSent) = [lineFrame]
  /\ session oneSent = Some {| id := 2%N |}
  /\ session (onClose closeEvent oneSent) = Some {| id := 2%N |}
  /\ sentFrames
       (effects
          (run oneSent [FireClose closeEvent; SetReadyState 1; FireOpen 10000]))
     = [lineFrame; lineFrame].
Proof. vm_compute. repeat split. Qed.

Lemma C1_close_keeps_session_witness :
  session oneSent = Some {| id := 2%N |}
  /\ session
       (onOpen 10000 (setReadyState 1 (onClose closeEvent oneSent)))
     = Some {| id := 2%N |}
  /\ sentFrames
       (effects (onOpen 10000 (setReadyState 1 (onClose closeEvent oneSent))))
     = [lineFrame; lineFrame].
Proof.
  split; [evaluated|].
  destruct (@C1_close_keeps_session string string string closeEvent 10000
              oneSent {| id := 2%N |} ltac:(evaluated))
    as (_ & _ & Hs & Hf).
  vm_compute in Hs, Hf |- *. split; [exact Hs|exact Hf].
Defined.

(** C2, as stated, fails on the order: the entry of request 1 is deleted
    from the registry first, and its resolver (promise 0) is called
    after that. *)
Lemma C2_resolver_called_after_delete :
  JsMap.get "1" (pending oneSent) = Some sentEntry
  /\ effects (onMessage (frame "S1") oneSent)
     = effects oneSent
       ++ [PendingDelete "1"; Resolve 0 (SettledResult "done"%string)].
Proof. vm_compute. split; reflexivity. Qed.

Lemma C2_resolved_once_after_removal_witness :
  effects (onMessage (frame "S1") oneSent)
  = effects oneSent
    ++ [PendingDelete "1"; Resolve 0 (SettledResult "done"%string)]
  /\ count_occ Nat.eq_dec
       (resolved
          (run (onMessage (frame "S1") oneSent)
             [FireMessage (frame "S1"); FireOpen 10000;
              FireMessage (frame "E1")]))
       0%nat
     = 1%nat.
Proof.
  destruct (@C2_resolved_once_after_removal string string string options
              [CallSendMessage 0 "line"%string None; SetReadyState 1;
               FireOpen 0]
              [FireMessage (frame "S1"); FireOpen 10000;
               FireMessage (frame "E1")]
              (list_byte_of_string "S1")
              (messageResultSuccess "1" "done"%string) "1"
              (SettledResult "done"%string) sentEntry
              ltac:(evaluated) ltac:(evaluated) ltac:(evaluated))
    as (He & _ & _ & _ & Hc).
  vm_compute in He, Hc |- *. split; [exact He|exact Hc].
Defined.

(** C3, as stated, fails: one request is pending and was sent at 0; the
    transport closes, its replacement opens, and the [open] event at 2 s
    writes nothing on the new transport. *)
Lemma C3_unexpired_entry_not_resent :
  JsMap.keys (pending oneSent) = ["1"%string]
  /\ isConnected (run oneSent [FireClose closeEvent; SetReadyState 1]) = true
  /\ effects
       (run oneSent [FireClose closeEvent; SetReadyState 1; FireOpen 2000])
     = effects oneSent
       ++ [LoggerError "received close event: %o" [ArgCloseEvent closeEvent];
           WebSocketNew "ws://peer"].
Proof. vm_compute. repeat split. Qed.

Lemma C4_one_write_per_window_witness :
  skipn 1 (sentFrames (effects (fst (sendMessageRequest 5000 oneSent sentEntry))))
  = []
  /\ skipn 1
       (sentFrames (effects (fst (sendMessageRequest 10000 oneSent sentEntry))))
     = [lineFrame]
  /\ retries (snd (sendMessageRequest 10000 oneSent sentEntry))
     = [{| date := 10000; expiresAt := 20000 |}]
  /\ skipn 1
       (sentFrames
          (effects
             (fst (sendMessageRequest 19999 oneSent
                     (snd (sendMessageRequest 10000 oneSent sentEntry))))))
     = [].
Proof.
  destruct (@C4_one_write_per_window string string string 5000 0 0
              oneSent oneSent sentEntry) as (_ & _ & _ & H5 & _).
  destruct (@C4_one_write_per_window string string string 10000 19999 0
              oneSent oneSent sentEntry) as (_ & _ & Hnext & _ & H10).
  destruct (H5 ltac:(evaluated) ltac:(lia)) as [H5a _].
  destruct (H10 ltac:(evaluated) ltac:(evaluated) ltac:(evaluated)
              ltac:(lia)) as (H10a & H10b & _).
  assert (Hn := Hnext ltac:(vm_compute; discriminate) ltac:(lia)).
  vm_compute in H5a, H10a, H10b, Hn |- *.
  split; [exact H5a|]. split; [exact H10a|]. split; [exact H10b|exact Hn].
Defined.

Lemma C5_maxRetryCount_never_consulted_witness :
  sentFrames (effects (run oneSent (scenario 0)))
  = sentFrames (effects (run oneSent (scenario 7)))
  /\ resolutions (effects (run oneSent (scenario 0)))
     = resolutions (effects (run oneSent (scenario 7)))
  /\ List.length (retries (snd (sendMessageRequest 60000 oneSent worn)))
     = 4%nat.
Proof.
  destruct (@C5_maxRetryCount_never_consulted string string string
              (scenario 0) (scenario 7) 60000 oneSent worn 9
              ltac:(evaluated))
    as (Hf & Hr & _ & _ & _ & _ & Hretry).
  destruct (Hretry ltac:(evaluated) ltac:(evaluated) ltac:(discriminate))
    as [_ H].
  apply (f_equal (@List.length _)) in H.
  vm_compute in Hf, Hr, H |- *.
  split; [exact Hf|]. split; [exact Hr|exact H].
Defined.

Lemma C6_duplicate_acknowledge_witness :
  effects (onMessage (frame "A1") (onMessage (frame "A1") oneSent))
  = effects (onMessage (frame "A1") oneSent)
    ++ [LoggerError "tried to acknowledge an already acknowledged request: %o"
          [ArgPending (withAcknowledged true sentEntry)]]
  /\ pending (onMessage (frame "A1") (onMessage (frame "A1") oneSent))
     = pending (onMessage (frame "A1") oneSent).
Proof.
  destruct (@C6_duplicate_acknowledge string string string
              (list_byte_of_string "A1") "1"
              (withAcknowledged true sentEntry)
              (onMessage (frame "A1") oneSent)
              ltac:(evaluated) ltac:(evaluated))
    as (H & _).
  destruct (H ltac:(evaluated)) as (H1 & H2 & _).
  apply (f_equal (@effects string string string)) in H1.
  vm_compute in H1, H2 |- *. split; [exact H1|exact H2].
Defined.

Lemma C7_single_transport_witness :
  isConnected queued = false
  /\ connect queued = queued
  /\ sendMessageRequest 0 queued queuedEntry = (connect queued, queuedEntry)
  /\ (countNew (effects (run fresh (scenario 0%Z ++ [FireClose closeEvent])))
      <= List.length
           (filter isFireClose (scenario 0%Z ++ [FireClose closeEvent]))
         + held (run fresh (scenario 0%Z ++ [FireClose closeEvent])))%nat.
Proof.
  destruct (@C7_single_transport string string string options
              (scenario 0 ++ [FireClose closeEvent]) 0 queued queuedEntry
              {| readyState := 0; binaryType := "arraybuffer";
                 listeners := ["close"; "error"; "open"; "message"]%string |})
    as (Hc & Hp & Hn).
  split; [evaluated|]. split; [exact (Hc ltac:(evaluated))|].
  destruct (Hp ltac:(evaluated)) as [Hpass _].
  split; [exact Hpass|exact Hn].
Defined.

Lemma C8_unknown_id_only_reported_witness :
  pending (onMessage (frame "S7") oneSent) = pending oneSent
  /\ resolutions (effects (onMessage (frame "S7") oneSent))
     = resolutions (effects oneSent)
  /\ pending (onMessage (frame "A7") oneSent) = pending oneSent.
Proof.
  destruct (@C8_unknown_id_only_reported string string string
              (list_byte_of_string "S7")
              (messageResultSuccess "7" "done"%string) "7" oneSent
              ltac:(evaluated) ltac:(evaluated) ltac:(evaluated))
    as (_ & Hp & _ & _ & Hr & _).
  destruct (@C8_unknown_id_only_reported string string string
              (list_byte_of_string "A7") (acknowledgeMessage "7") "7" oneSent
              ltac:(evaluated) ltac:(evaluated) ltac:(evaluated))
    as (_ & Hp' & _).
  vm_compute in Hp, Hr, Hp' |- *.
  split; [exact Hp|]. split; [exact Hr|exact Hp'].
Defined.

Lemma C9_no_page_id_is_local_witness :
  client
    (pump describe addPageLine Reporting 0
       (store lineTypeLog [NotArrayBuffer "third"] pageless))
  = oneSent
  /\ chain
       (pump describe addPageLine Silent 0
          (store lineTypeLog [NotArrayBuffer "third"] pageless))
     = [].
Proof.
  destruct (@C9_no_page_id_is_local string string string string string
              describe addPageLine Reporting 0 lineTypeLog
              [NotArrayBuffer "third"] pageless []
              ltac:(evaluated) ltac:(evaluated))
    as (Hc & _).
  destruct (@C9_no_page_id_is_local string string string string string
              describe addPageLine Silent 0 lineTypeLog
              [NotArrayBuffer "third"] pageless []
              ltac:(evaluated) ltac:(evaluated))
    as (_ & Hq & _).
  vm_compute in Hc, Hq |- *. split; [exact Hc|exact Hq].
Defined.

Lemma C10_result_resolves_any_entry_witness :
  JsMap.get "1" (pending queued) = Some queuedEntry
  /\ pending (onMessage (frame "E1") queued) = []
  /\ effects (onMessage (frame "E1") queued)
     = effects queued
       ++ [PendingDelete "1"; Resolve 0 (SettledError "refused"%string)].
Proof.
  split; [evaluated|].
  destruct (@C10_result_resolves_any_entry string string string
              (list_byte_of_string "E1")
              (messageResultError "1" "refused"%string) "1"
              (SettledError "refused"%string) queuedEntry queued
              ltac:(evaluated) ltac:(evaluated) ltac:(evaluated))
    as (Hp & _ & He & _).
  vm_compute in Hp, He |- *. split; [exact Hp|exact He].
Defined.

(** * More of the client *)

(** ** Identifiers *)

Lemma lor_shiftl_add (a b k : N) :
  (a < 2 ^ k)%N -> N.lor a (N.shiftl b k) = (a + b * 2 ^ k)%N.
Proof.
  intros Ha.
  assert (Hland : N.land a (N.shiftl b k) = 0%N).
  { apply N.bits_inj. intros n. rewrite N.land_spec, N.bits_0.
    destruct (N.lt_ge_cases n k) as [Hn|Hn].
    - now rewrite N.shiftl_spec_low, andb_false_r.
    - rewrite <- (N.mod_small a (2 ^ k)) by exact Ha.
      now rewrite N.mod_pow2_bits_high. }
  rewrite <- N.lxor_lor by exact Hland.
  rewrite <- N.add_nocarry_lxor by exact Hland.
  now rewrite N.shiftl_mul_pow2.
Qed.

Lemma byteAt_bound (bytes : list byte) (i : nat) : (byteAt bytes i < 256)%N.
Proof.
  unfold byteAt. pose proof (Byte.to_N_bounded (nth i bytes x00)). lia.
Qed.

Lemma fromBytesLE_value (bytes : list byte) :
  Long_fromBytesLE bytes
  = (byteAt bytes 0 + byteAt bytes 1 * 2 ^ 8
     + byteAt bytes 2 * 2 ^ 16 + byteAt bytes 3 * 2 ^ 24
     + (byteAt bytes 4 + byteAt bytes 5 * 2 ^ 8
        + byteAt bytes 6 * 2 ^ 16 + byteAt bytes 7 * 2 ^ 24)
       * 2 ^ 32)%N.
Proof.
  pose proof (byteAt_bound bytes 0). pose proof (byteAt_bound bytes 1).
  pose proof (byteAt_bound bytes 2). pose proof (byteAt_bound bytes 3).
  pose proof (byteAt_bound bytes 4). pose proof (byteAt_bound bytes 5).
  pose proof (byteAt_bound bytes 6). pose proof (byteAt_bound bytes 7).
  assert (Hhalf : forall a b c d : N,
            (a < 256 -> b < 256 -> c < 256 -> d < 256 ->
             N.lor (N.lor (N.lor a (N.shiftl b 8)) (N.shiftl c 16))
               (N.shiftl d 24)
             = a + b * 2 ^ 8 + c * 2 ^ 16 + d * 2 ^ 24)%N).
  { intros a b c d Ha Hb Hc Hd.
    rewrite (@lor_shiftl_add a b 8%N) by (simpl; lia).
    rewrite (@lor_shiftl_add _ c 16%N) by (simpl; lia).
    rewrite (@lor_shiftl_add _ d 24%N) by (simpl; lia). reflexivity. }
  unfold Long_fromBytesLE. rewrite !Hhalf by assumption.
  rewrite N.lor_comm, lor_shiftl_add by (simpl; lia). reflexivity.
Qed.

(** X1: [Long.fromBytesLE(bytes, true)] reads the first eight bytes as a
    little-endian number, a byte that is missing counting as zero, and the
    value fits in 64 bits. *)
Theorem X1_fromBytesLE_little_endian (bytes : list byte) :
  Long_fromBytesLE bytes
  = (byteAt bytes 0 + byteAt bytes 1 * 256 ^ 1 + byteAt bytes 2 * 256 ^ 2
     + byteAt bytes 3 * 256 ^ 3 + byteAt bytes 4 * 256 ^ 4
     + byteAt bytes 5 * 256 ^ 5 + byteAt bytes 6 * 256 ^ 6
     + byteAt bytes 7 * 256 ^ 7)%N
  /\ (Long_fromBytesLE bytes < 2 ^ 64)%N.
Proof.
  pose proof (byteAt_bound bytes 0). pose proof (byteAt_bound bytes 1).
  pose proof (byteAt_bound bytes 2). pose proof (byteAt_bound bytes 3).
  pose proof (byteAt_bound bytes 4). pose proof (byteAt_bound bytes 5).
  pose proof (byteAt_bound bytes 6). pose proof (byteAt_bound bytes 7).
  rewrite fromBytesLE_value. simpl N.pow. split; lia.
Qed.

(** X2: the decimal form of an id can be read back: parsing
    [toString()] gives the id again, so two ids with the same decimal
    form are the same id and distinct requests never share a registry
    key. *)
Theorem X2_toString_injective (a b : Long) :
  option_map N.of_uint (NilZero.uint_of_string (Long_toString a)) = Some a
  /\ (Long_toString a = Long_toString b -> a = b).
Proof.
  assert (Hback : forall n : Long,
            option_map N.of_uint (NilZero.uint_of_string (Long_toString n))
            = Some n).
  { intros n. unfold Long_toString. rewrite NilZero.usu.
    - simpl. now rewrite DecimalN.Unsigned.of_to.
    - destruct n; [discriminate|apply DecimalPos.Unsigned.to_uint_nonnil]. }
  split; [apply Hback|].
  intros H. pose proof (Hback a) as Ha. rewrite H, Hback in Ha.
  now injection Ha.
Qed.
(** ** Entries along a run *)

Section EntryProperties.

Variables Request Result Error : Type.

Local Abbreviation TClient := (Client Request Result Error).
Local Abbreviation TPending := (IPending Request).
Local Abbreviation TInput := (Input Request).

Implicit Types (c : TClient) (p : TPending) (now : DateTime).

Lemma get_In (k : string) p (m : JsMap.t TPending) :
  JsMap.get k m = Some p -> In (k, p) m.
Proof.
  induction m as [|[k0 v0] m IH]; simpl; [discriminate|].
  destruct (String.eqb k k0) eqn:E.
  - intros [= ->]. apply String.eqb_eq in E. subst. now left.
  - intros H. right. now apply IH.
Qed.

Lemma In_set (k k' : string) (v p' : TPending) (m : JsMap.t TPending) :
  In (k', p') (JsMap.set k v m) -> (k' = k /\ p' = v) \/ In (k', p') m.
Proof.
  induction m as [|[k0 v0] m IH]; simpl.
  - intros [[= <- <-]|[]]. now left.
  - destruct (String.eqb k k0) eqn:E; simpl.
    + apply String.eqb_eq in E. subst k0.
      intros [[= <- <-]|H]; [now left|now right; right].
    + intros [H|H]; [now right; left|].
      destruct (IH H); [now left|now right; right].
Qed.

Lemma In_delete (k k' : string) (p' : TPending) (m : JsMap.t TPending) :
  In (k', p') (JsMap.delete k m) -> In (k', p') m.
Proof.
  induction m as [|[k0 v0] m IH]; simpl; [tauto|].
  destruct (String.eqb k k0); simpl; tauto.
Qed.

Lemma keys_set (k : string) (v : TPending) (m : JsMap.t TPending) :
  JsMap.keys (JsMap.set k v m) = JsMap.keys m
  \/ (~ In k (JsMap.keys m)
      /\ JsMap.keys (JsMap.set k v m) = JsMap.keys m ++ [k]).
Proof.
  induction m as [|[k0 v0] m IH]; simpl.
  - right. split; [tauto|reflexivity].
  - destruct (String.eqb k k0) eqn:E; simpl; [now left|].
    apply String.eqb_neq in E.
    destruct IH as [->|[Hn ->]]; [now left|right].
    split; [|reflexivity]. intros [H|H]; [now apply E|now apply Hn].
Qed.

Lemma keys_set_NoDup (k : string) (v : TPending) (m : JsMap.t TPending) :
  NoDup (JsMap.keys m) -> NoDup (JsMap.keys (JsMap.set k v m)).
Proof.
  intros Hn. destruct (keys_set k v m) as [->|[Hk ->]]; [exact Hn|].
  apply NoDup_app; [exact Hn|constructor; [intros []|constructor]|].
  intros x Hx [<-|[]]. now apply Hk.
Qed.

Lemma keys_delete_in (k x : string) (m : JsMap.t TPending) :
  In x (JsMap.keys (JsMap.delete k m)) -> In x (JsMap.keys m) /\ x <> k.
Proof.
  induction m as [|[k0 v0] m IH]; simpl; [tauto|].
  destruct (String.eqb k k0) eqn:E; simpl.
  - intros H. destruct (IH H). split; [now right|assumption].
  - apply String.eqb_neq in E. intros [<-|H].
    + split; [now left|congruence].
    + destruct (IH H). split; [now right|assumption].
Qed.

Lemma keys_delete_NoDup (k : string) (m : JsMap.t TPending) :
  NoDup (JsMap.keys m) -> NoDup (JsMap.keys (JsMap.delete k m)).
Proof.
  induction m as [|[k0 v0] m IH]; simpl; intros Hn; [constructor|].
  inversion Hn as [|? ? Hx Hm]; subst.
  destruct (String.eqb k k0); simpl; [now apply IH|].
  constructor; [|now apply IH].
  intros H. apply keys_delete_in in H. tauto.
Qed.

(** What a pass leaves of the entry it was given. *)
Lemma sendMessageRequest_touched now c p :
  touched p (snd (sendMessageRequest now c p)).
Proof.
  rewrite sendMessageRequest_spec.
  destruct (isConnected c); [destruct (due now p) eqn:Hd|]; cbn [snd];
    try constructor. exact Hd.
Qed.

Lemma driveEntries_touched now (m : JsMap.t TPending) : forall c,
  Forall2 (fun a b => fst b = fst a /\ touched (snd a) (snd b))
    m (snd (driveEntries now c m)).
Proof.
  induction m as [|[k p] m IH]; intros c; [constructor|].
  cbn [driveEntries].
  pose proof (sendMessageRequest_touched now c p) as Hp.
  destruct (sendMessageRequest now c p) as [c1 p1]. cbn [snd] in Hp.
  specialize (IH c1). destruct (driveEntries now c1 m) as [c2 m2].
  cbn [snd] in *. constructor; [split; [reflexivity|exact Hp]|exact IH].
Qed.

Lemma Forall2_touched_in (m m' : JsMap.t TPending) (k : string) p' :
  Forall2 (fun a b => fst b = fst a /\ touched (snd a) (snd b)) m m' ->
  In (k, p') m' ->
  JsMap.keys m' = JsMap.keys m
  /\ exists p, In (k, p) m /\ touched p p'.
Proof.
  intros HF. induction HF as [|[ka pa] [kb pb] m m' [Hk Ht] HF IH];
    [intros []|].
  cbn [fst snd] in *. subst kb. intros [[= -> ->]|Hin].
  - split.
    + simpl. f_equal. clear -HF. induction HF as [|a b l l' [H _] _ IH'];
        [reflexivity|]. simpl. now rewrite H, IH'.
    + exists pa. split; [now left|exact Ht].
  - destruct (IH Hin) as [Hkeys (p & Hp & Htp)]. split.
    + simpl. now rewrite Hkeys.
    + exists p. split; [now right|exact Htp].
Qed.

Lemma Forall2_touched_keys (m m' : JsMap.t TPending) :
  Forall2 (fun a b => fst b = fst a /\ touched (snd a) (snd b)) m m' ->
  JsMap.keys m' = JsMap.keys m.
Proof.
  intros HF. induction HF as [|a b l l' [H _] _ IH]; [reflexivity|].
  simpl. now rewrite H, IH.
Qed.

(** One handler run, entry by entry: an entry of the registry after the
    run is an entry of the registry before it, under the same key and
    [touched], or it is the entry the run's [sendMessage] built, under
    the decimal form of its id. *)
Lemma step_entries c (i : TInput) (k : string) p' :
  In (k, p') (pending (step c i)) ->
  (exists p, In (k, p) (pending c) /\ touched p p')
  \/ (exists now req o,
        i = CallSendMessage now req o
        /\ k = Long_toString (requestId (newEntry req o c))
        /\ touched (newEntry req o c) p').
Proof.
  destruct i as [now req o|state|now|e|args|data]; cbn [step].
  - rewrite sendMessage_unfold. cbn [snd pending withPending].
    destruct (sendMessageRequest_frame now (registered req o c)
                (newEntry req o c)) as (Hp & _).
    pose proof (sendMessageRequest_touched now (registered req o c)
                  (newEntry req o c)) as Ht.
    destruct (sendMessageRequest now (registered req o c) (newEntry req o c))
      as [c3 p3]. cbn [fst snd] in *. rewrite Hp.
    unfold registered at 1. cbn [pending emit emitAll withPending].
    intros H. apply In_set in H. destruct H as [[-> ->]|H].
    + right. now exists now, req, o.
    + apply In_set in H. destruct H as [[-> ->]|H].
      * right. exists now, req, o. repeat split. constructor.
      * left. exists p'. split; [exact H|constructor].
  - intros H. left. exists p'. split; [|constructor].
    unfold setReadyState in H. now destruct (connection c).
  - unfold onOpen, checkPendingRequests.
    pose proof (driveEntries_touched now (pending c) c) as HF.
    destruct (driveEntries now c (pending c)) as [c1 m1].
    cbn [snd pending withPending] in *. intros H. left.
    now apply (@Forall2_touched_in (pending c) m1 k p' HF).
  - rewrite onClose_spec. intros H. left. exists p'. split; [exact H|].
    constructor.
  - intros H. left. exists p'. split; [exact H|constructor].
  - unfold onMessage. destruct data as [bytes|text];
      [|intros H; left; exists p'; split; [exact H|constructor]].
    destruct (decode (_codec c) bytes) as [[k0|t|k0 err|k0 res|n]|];
      try (intros H; left; exists p'; split; [exact H|constructor]).
    + destruct (JsMap.get k0 (pending c)) as [p|] eqn:Hg;
        [|intros H; left; exists p'; split; [exact H|constructor]].
      destruct (acknowledged p) eqn:Ha;
        [intros H; left; exists p'; split; [exact H|constructor]|].
      cbn [pending withPending]. intros H. apply In_set in H. left.
      destruct H as [[-> ->]|H].
      * exists p. split; [now apply get_In|now constructor].
      * exists p'. split; [exact H|constructor].
    + destruct (JsMap.get k0 (pending c)) as [p|] eqn:Hg;
        [|intros H; left; exists p'; split; [exact H|constructor]].
      cbn [pending emit emitAll withPending]. intros H. left.
      exists p'. split; [now apply In_delete in H|constructor].
    + destruct (JsMap.get k0 (pending c)) as [p|] eqn:Hg;
        [|intros H; left; exists p'; split; [exact H|constructor]].
      cbn [pending emit emitAll withPending]. intros H. left.
      exists p'. split; [now apply In_delete in H|constructor].
Qed.

Lemma step_keys_NoDup c (i : TInput) :
  NoDup (JsMap.keys (pending c)) -> NoDup (JsMap.keys (pending (step c i))).
Proof.
  intros Hn. destruct i as [now req o|state|now|e|args|data]; cbn [step].
  - rewrite sendMessage_unfold. cbn [snd pending withPending].
    destruct (sendMessageRequest_frame now (registered req o c)
                (newEntry req o c)) as (Hp & _).
    destruct (sendMessageRequest now (registered req o c) (newEntry req o c))
      as [c3 p3]. cbn [fst snd] in *. rewrite Hp.
    unfold registered. cbn [pending emit emitAll withPending].
    now apply keys_set_NoDup, keys_set_NoDup.
  - unfold setReadyState. now destruct (connection c).
  - unfold onOpen, checkPendingRequests.
    pose proof (driveEntries_touched now (pending c) c) as HF.
    destruct (driveEntries now c (pending c)) as [c1 m1].
    cbn [snd pending withPending] in *.
    now rewrite (@Forall2_touched_keys (pending c) m1 HF).
  - now rewrite onClose_spec.
  - exact Hn.
  - unfold onMessage. destruct data as [bytes|text]; [|exact Hn].
    destruct (decode (_codec c) bytes) as [[k0|t|k0 err|k0 res|n]|];
      try exact Hn.
    + destruct (JsMap.get k0 (pending c)) as [p|]; [|exact Hn].
      destruct (acknowledged p); [exact Hn|].
      now apply keys_set_NoDup.
    + destruct (JsMap.get k0 (pending c)) as [p|]; [|exact Hn].
      now apply keys_delete_NoDup.
    + destruct (JsMap.get k0 (pending c)) as [p|]; [|exact Hn].
      now apply keys_delete_NoDup.
Qed.

Lemma touched_fields p p' :
  touched p p' ->
  requestId p' = requestId p /\ request p' = request p
  /\ resolve p' = resolve p /\ maxRetryCount p' = maxRetryCount p.
Proof.
  intros [q|now q Hd|q Ha]; try (now repeat split).
  unfold recordWrite. now destruct (sent q).
Qed.

Lemma In_get (k : string) p (m : JsMap.t TPending) :
  NoDup (JsMap.keys m) -> In (k, p) m -> JsMap.get k m = Some p.
Proof.
  induction m as [|[k0 v0] m IH]; simpl; [intros _ []|].
  intros Hn. inversion Hn as [|? ? Hx Hm]; subst.
  intros [[= -> ->]|Hin].
  - now rewrite String.eqb_refl.
  - destruct (String.eqb k k0) eqn:E; [|now apply IH].
    apply String.eqb_eq in E. subst k0. exfalso. apply Hx.
    change k with (fst (k, p)). now apply in_map.
Qed.

Lemma fromBytesLE_bound (bytes : list byte) :
  (Long_fromBytesLE bytes < 2 ^ 64)%N.
Proof.
  pose proof (byteAt_bound bytes 0). pose proof (byteAt_bound bytes 1).
  pose proof (byteAt_bound bytes 2). pose proof (byteAt_bound bytes 3).
  pose proof (byteAt_bound bytes 4). pose proof (byteAt_bound bytes 5).
  pose proof (byteAt_bound bytes 6). pose proof (byteAt_bound bytes 7).
  rewrite fromBytesLE_value. simpl N.pow. lia.
Qed.

Lemma keyed_step c (i : TInput) : keyed c -> keyed (step c i).
Proof.
  intros [Hn Hk]. split; [now apply step_keys_NoDup|].
  intros k p' Hin. apply step_entries in Hin.
  destruct Hin as [(p & Hp & Ht)|(now & req & o & -> & -> & Ht)];
    destruct (touched_fields Ht) as (-> & _).
  - now apply Hk.
  - split; [reflexivity|]. cbn [requestId newEntry].
    apply fromBytesLE_bound.
Qed.

Lemma keyed_run (inputs : list TInput) : forall c,
  keyed c -> keyed (run c inputs).
Proof.
  induction inputs as [|i l IH]; intros c Hc; [exact Hc|].
  change (run c (i :: l)) with (run (step c i) l).
  now apply IH, keyed_step.
Qed.

(** X3: at every point of every run of a new client, the registry has
    no key twice, every entry sits under the decimal form of its own
    request id, an unsigned 64-bit value, and looking that key up gives
    the entry back. *)
Theorem X3_registry_keyed_by_id
    (options : IClientOptions Request Result Error) (inputs : list TInput) :
  let c := run (newClient options) inputs in
  NoDup (JsMap.keys (pending c))
  /\ forall (k : string) p, In (k, p) (pending c) ->
       k = Long_toString (requestId p)
       /\ (requestId p < 2 ^ 64)%N
       /\ JsMap.get (Long_toString (requestId p)) (pending c) = Some p.
Proof.
  intros c.
  assert (Hk : keyed c).
  { apply keyed_run. split; [constructor|intros k p []]. }
  destruct Hk as [Hn Hk]. split; [exact Hn|].
  intros k p Hin. destruct (Hk k p Hin) as [Hkey Hb].
  repeat split; trivial. rewrite <- Hkey. now apply In_get.
Qed.

(** *** The spacing of the attempts *)









End EntryProperties.

(** ** The session, the transport and the random source along a run *)

Section RunProperties.

Variables Request Result Error : Type.

Local Abbreviation TClient := (Client Request Result Error).
Local Abbreviation TPending := (IPending Request).
Local Abbreviation TEffect := (Effect Request Result Error).
Local Abbreviation TInput := (Input Request).

Implicit Types (c : TClient) (p : TPending) (now : DateTime).

Lemma driveEntries_preserves (P : TClient -> Prop) now :
  (forall c p, P c -> P (fst (sendMessageRequest now c p))) ->
  forall (m : JsMap.t TPending) c, P c -> P (fst (driveEntries now c m)).
Proof.
  intros Hpass. induction m as [|[k p] m IH]; intros c Hc; [exact Hc|].
  cbn [driveEntries]. specialize (Hpass c p Hc).
  destruct (sendMessageRequest now c p) as [c1 p1]. cbn [fst] in Hpass.
  specialize (IH c1 Hpass). now destruct (driveEntries now c1 m).
Qed.

(** A property of the client that does not read the registry, the
    counters or the log, and that a pass, a change of [readyState] and
    [onClose] preserve, is preserved by every handler. *)
Lemma step_preserves (P : TClient -> Prop) :
  (forall (m : JsMap.t TPending) c, P c -> P (withPending m c)) ->
  (forall (es : list TEffect) c,
     sentFrames es = [] -> countNew es = 0%nat -> P c -> P (emitAll es c)) ->
  (forall (n : nat) c, P c -> P (withPromises n c)) ->
  (forall (n : nat) c, P c -> P (withRandomDraws n c)) ->
  (forall now c p, P c -> P (fst (sendMessageRequest now c p))) ->
  (forall (state : number) c, P c -> P (setReadyState state c)) ->
  (forall (e : ICloseEvent) c, P c -> P (onClose e c)) ->
  forall c (i : TInput), P c -> P (step c i).
Proof.
  intros Hpend Hemit Hprom Hdraw Hpass Hready Hclose c i Hc.
  destruct i as [now req o|state|now|e|args|data]; cbn [step].
  - rewrite sendMessage_unfold. cbn [snd]. apply Hpend, Hpass.
    unfold registered, emit. apply Hemit; trivial.
    now apply Hpend, Hdraw, Hprom.
  - now apply Hready.
  - unfold onOpen, checkPendingRequests.
    pose proof (@driveEntries_preserves P now (Hpass now) (pending c) c Hc)
      as H.
    destruct (driveEntries now c (pending c)) as [c1 m1]. now apply Hpend.
  - now apply Hclose.
  - unfold onError, emit. now apply Hemit.
  - destruct (onMessage_shape data c) as (m & es & -> & Hn & Hs).
    now apply Hpend, Hemit.
Qed.

Lemma run_preserves (P : TClient -> Prop) :
  (forall c (i : TInput), P c -> P (step c i)) ->
  forall (inputs : list TInput) c, P c -> P (run c inputs).
Proof.
  intros Hstep. induction inputs as [|i l IH]; intros c Hc; [exact Hc|].
  change (run c (i :: l)) with (run (step c i) l). now apply IH, Hstep.
Qed.

Lemma ensureSession_cases c :
  (exists s, session c = Some s /\ ensureSession c = (s, c))
  \/ (session c = None
      /\ ensureSession c
         = ({| id := Long_fromBytesLE (_getRandomValues c (randomDraws c)) |},
            withSession
              (Some {| id := Long_fromBytesLE
                               (_getRandomValues c (randomDraws c)) |})
              (withRandomDraws (S (randomDraws c)) c))).
Proof.
  unfold ensureSession. destruct (session c) as [s|] eqn:E.
  - left. now exists s.
  - right. split; reflexivity.
Qed.

Lemma session_step (s : Session) c (i : TInput) :
  session c = Some s -> session (step c i) = Some s.
Proof.
  apply (@step_preserves (fun d => session d = Some s)); trivial.
  - intros now d p Hd. rewrite sendMessageRequest_spec.
    rewrite (ensureSession_present d Hd). cbn [fst snd].
    destruct (isConnected d); [now destruct (due now p)|].
    unfold connect. now destruct (connection d).
  - intros state d Hd. unfold setReadyState. now destruct (connection d).
Qed.

(** X4: a session, once created, is the session of the client for good:
    no sequence of calls, transport events (close and error included)
    and frames replaces it or clears it. *)
Theorem X4_session_never_replaced (s : Session) c (inputs : list TInput) :
  session c = Some s -> session (run c inputs) = Some s.
Proof.
  apply (@run_preserves (fun d => session d = Some s)).
  intros d i. apply session_step.
Qed.

Lemma held_step c (i : TInput) :
  connection c <> None -> connection (step c i) <> None.
Proof.
  apply (@step_preserves (fun d => connection d <> None)); trivial.
  - intros now d p Hd. rewrite sendMessageRequest_spec.
    destruct (ensureSession_connection d) as (Hconn & _).
    destruct (isConnected d); [destruct (due now p)|]; cbn [fst];
      try (unfold emit, emitAll; cbn [connection]); rewrite ?Hconn; trivial.
    unfold connect. destruct (connection d) eqn:E; [congruence|discriminate].
  - intros state d Hd. unfold setReadyState.
    destruct (connection d) eqn:E; [discriminate|congruence].
  - intros e d _. rewrite onClose_spec. discriminate.
Qed.

Lemma constants_step c (i : TInput) (W : IWebSocketConstructor) (u : string) :
  _WebSocket c = W /\ _url c = u ->
  _WebSocket (step c i) = W /\ _url (step c i) = u.
Proof.
  apply (@step_preserves (fun d => _WebSocket d = W /\ _url d = u)); trivial.
  - intros now d p Hd. rewrite sendMessageRequest_spec.
    assert (He : _WebSocket (snd (ensureSession d)) = _WebSocket d
                 /\ _url (snd (ensureSession d)) = _url d)
      by (unfold ensureSession; now destruct (session d)).
    destruct He as [He1 He2].
    destruct (isConnected d); [destruct (due now p)|]; cbn [fst];
      try (unfold emit, emitAll; cbn [_WebSocket _url]);
      rewrite ?He1, ?He2; trivial.
    unfold connect. now destruct (connection d).
  - intros state d Hd. unfold setReadyState. now destruct (connection d).
Qed.

Lemma wired_step c (i : TInput) : wired c -> wired (step c i).
Proof.
  apply (@step_preserves (fun d => wired d)); trivial.
  - intros now d p Hd. rewrite sendMessageRequest_spec.
    assert (He : wired (snd (ensureSession d)))
      by (unfold ensureSession; now destruct (session d)).
    destruct (isConnected d); [now destruct (due now p)|]. cbn [fst].
    unfold connect. destruct (connection d) eqn:E; [exact Hd|].
    intros ws [= <-]. split; reflexivity.
  - intros state d Hd. unfold setReadyState.
    destruct (connection d) as [ws0|] eqn:E; [|exact Hd].
    intros ws [= <-]. cbn [binaryType listeners]. now apply Hd.
  - intros e d _. rewrite onClose_spec. intros ws [= <-].
    split; reflexivity.
Qed.

(** X5: a client that holds a transport instance holds one after every
    handler run, whatever happens (a close swaps the instance, nothing
    leaves the client without one); and in every run of a new client the
    instance held is the constructor's, in binary mode
    ([binaryType = "arraybuffer"]), with the four listeners added exactly
    once. *)
Theorem X5_transport_held_and_wired
    (options : IClientOptions Request Result Error) c
    (inputs : list TInput) :
  (connection c <> None -> connection (run c inputs) <> None)
  /\ forall ws,
       connection (run (newClient options) inputs) = Some ws ->
       binaryType ws = "arraybuffer"%string
       /\ listeners ws
          = listeners (construct (WebSocket options) (url options))
            ++ ["close"%string; "error"%string; "open"%string;
                "message"%string].
Proof.
  split.
  - apply (@run_preserves (fun d => connection d <> None)).
    intros d i. apply held_step.
  - assert (Hk : _WebSocket (run (newClient options) inputs)
                 = WebSocket options
                 /\ _url (run (newClient options) inputs) = url options).
    { apply (@run_preserves
               (fun d => _WebSocket d = WebSocket options
                         /\ _url d = url options)).
      - intros d i. apply constants_step.
      - split; reflexivity. }
    assert (Hw : wired (run (newClient options) inputs)).
    { apply (@run_preserves (fun d => wired d)).
      - intros d i. apply wired_step.
      - intros ws [=]. }
    destruct Hk as [Hk1 Hk2]. intros ws Hws.
    destruct (Hw ws Hws) as [Hb Hl]. rewrite Hk1, Hk2 in Hl. now split.
Qed.

Lemma codec_step c (i : TInput) (K : Codec Request Result Error) :
  _codec c = K -> _codec (step c i) = K.
Proof.
  apply (@step_preserves (fun d => _codec d = K)); trivial.
  - intros now d p Hd.
    destruct (sendMessageRequest_frame now d p) as (_ & _ & -> & _).
    exact Hd.
  - intros state d Hd. unfold setReadyState. now destruct (connection d).
Qed.

Lemma oneSession_step c (i : TInput) : oneSession c -> oneSession (step c i).
Proof.
  apply (@step_preserves (fun d => oneSession d)); trivial.
  - intros es d Hs _ Hd. unfold oneSession, emitAll in *.
    cbn [session effects]. rewrite sentFrames_app, Hs, app_nil_r. exact Hd.
  - intros now d p Hd. rewrite sendMessageRequest_spec.
    destruct (isConnected d).
    + destruct (ensureSession_cases d) as [(s & Hs & ->)|(Hs & ->)];
        cbn [fst snd]; unfold oneSession in *; rewrite Hs in Hd.
      * destruct (due now p); cbn [fst]; [|now rewrite Hs].
        unfold emit, emitAll. cbn [session effects]. rewrite Hs, sentFrames_app.
        apply Forall_app. split; [exact Hd|].
        constructor; [|constructor]. eexists _, _. reflexivity.
      * destruct (due now p); cbn [fst].
        -- unfold emit, emitAll. cbn [session effects withSession
             withRandomDraws]. rewrite sentFrames_app, Hd.
           constructor; [|constructor]. eexists _, _. reflexivity.
        -- cbn [session effects withSession withRandomDraws].
           rewrite Hd. constructor.
    + cbn [fst]. unfold connect. destruct (connection d); [exact Hd|].
      unfold oneSession in *. cbn [session effects emit emitAll withConnection].
      rewrite sentFrames_app. simpl. now rewrite app_nil_r.
  - intros state d Hd. unfold setReadyState. now destruct (connection d).
  - intros e d Hd. rewrite onClose_spec. unfold oneSession in *.
    cbn [session effects emitAll withConnection].
    rewrite sentFrames_app. simpl. now rewrite app_nil_r.
Qed.

(** X18: in every run of a new client, every frame ever written carries
    the one session id of the client: with no session nothing has been
    written, and with a session each frame written so far, on whichever
    transport instance, is the encoding of a request under that
    session's id. *)
Theorem X18_every_frame_under_the_session
    (options : IClientOptions Request Result Error) (inputs : list TInput) :
  let c := run (newClient options) inputs in
  match session c with
  | None => sentFrames (effects c) = []
  | Some s =>
      forall f, In f (sentFrames (effects c)) ->
        exists (rid : string) (req : Request),
          f = encode (codec options)
                {| mrRequestId := rid; mrRequest := req;
                   mrSessionId := Long_toString (id s) |}
  end.
Proof.
  intros c.
  assert (Hk : _codec c = codec options).
  { apply (@run_preserves (fun d => _codec d = codec options));
      [|reflexivity]. intros d i. apply codec_step. }
  assert (Ho : oneSession c).
  { apply (@run_preserves (fun d => oneSession d)); [|reflexivity].
    intros d i. apply oneSession_step. }
  unfold oneSession in Ho. destruct (session c) as [s|]; [|exact Ho].
  intros f Hf. rewrite Forall_forall in Ho.
  destruct (Ho f Hf) as (rid & req & ->). rewrite Hk. now exists rid, req.
Qed.

(** *** Promises and random answers *)

Lemma sendMessageRequest_count now c p :
  promises (fst (sendMessageRequest now c p)) = promises c
  /\ (randomDraws (fst (sendMessageRequest now c p)) + sessionDraws c
      = randomDraws c + sessionDraws (fst (sendMessageRequest now c p)))%nat.
Proof.
  rewrite sendMessageRequest_spec. unfold sessionDraws.
  destruct (isConnected c).
  - destruct (ensureSession_cases c) as [(s & Hs & ->)|(Hs & ->)];
      destruct (due now p); cbn [fst snd]; unfold emit, emitAll;
      cbn [promises randomDraws session withSession withRandomDraws];
      rewrite Hs; split; lia.
  - cbn [fst]. unfold connect. destruct (connection c); [split; lia|].
    cbn [promises randomDraws session emit emitAll withConnection].
    split; lia.
Qed.

Lemma step_count c (i : TInput) :
  promises (step c i)
  = (promises c + if isCallSendMessage i then 1 else 0)%nat
  /\ (randomDraws (step c i) + sessionDraws c
      = randomDraws c + sessionDraws (step c i)
        + if isCallSendMessage i then 1 else 0)%nat.
Proof.
  destruct i as [now req o|state|now|e|args|data];
    cbn [step isCallSendMessage].
  - rewrite sendMessage_unfold. cbn [snd].
    destruct (sendMessageRequest_count now (registered req o c)
                (newEntry req o c)) as [H1 H2].
    destruct (sendMessageRequest now (registered req o c) (newEntry req o c))
      as [c3 p3]. cbn [fst snd] in *.
    change (promises (withPending _ c3)) with (promises c3).
    change (randomDraws (withPending _ c3)) with (randomDraws c3).
    change (sessionDraws (withPending _ c3)) with (sessionDraws c3).
    change (promises (registered req o c)) with (S (promises c)) in H1.
    change (randomDraws (registered req o c)) with (S (randomDraws c)) in H2.
    change (sessionDraws (registered req o c)) with (sessionDraws c) in H2.
    split; lia.
  - unfold setReadyState. destruct (connection c); split;
      unfold sessionDraws; cbn [promises randomDraws session withConnection];
      lia.
  - unfold onOpen, checkPendingRequests.
    pose proof (@driveEntries_preserves
                  (fun d => promises d = promises c
                            /\ (randomDraws d + sessionDraws c
                                = randomDraws c + sessionDraws d)%nat) now)
      as H.
    assert (Hpass : forall (d : TClient) (q : TPending),
              promises d = promises c
              /\ (randomDraws d + sessionDraws c
                  = randomDraws c + sessionDraws d)%nat ->
              promises (fst (sendMessageRequest now d q)) = promises c
              /\ (randomDraws (fst (sendMessageRequest now d q))
                  + sessionDraws c
                  = randomDraws c
                    + sessionDraws (fst (sendMessageRequest now d q)))%nat).
    { intros d q [Ha Hb].
      destruct (sendMessageRequest_count now d q) as [H1 H2].
      split; lia. }
    specialize (H Hpass (pending c) c (conj eq_refl eq_refl)).
    destruct (driveEntries now c (pending c)) as [c1 m1]. cbn [fst] in H.
    change (promises (withPending m1 c1)) with (promises c1).
    change (randomDraws (withPending m1 c1)) with (randomDraws c1).
    change (sessionDraws (withPending m1 c1)) with (sessionDraws c1).
    destruct H. split; lia.
  - rewrite onClose_spec. unfold sessionDraws.
    cbn [promises randomDraws session emitAll withConnection]. split; lia.
  - unfold onError, emit, sessionDraws.
    cbn [promises randomDraws session emitAll]. split; lia.
  - destruct (onMessage_shape data c) as (m & es & -> & _).
    unfold sessionDraws.
    cbn [promises randomDraws session emitAll withPending]. split; lia.
Qed.


(** X20: in every run of a new client, the requests pending and the
    requests resolved never add up to more than the requests made: no
    request is pending and resolved at once, and none is resolved
    twice. *)
Theorem X20_pending_and_resolved_bounded
    (options : IClientOptions Request Result Error) (inputs : list TInput) :
  let c := run (newClient options) inputs in
  (List.length (pending c) + List.length (resolutions (effects c))
   <= promises c)%nat.
Proof.
  intros c.
  assert (Hs : singleUse c)
    by (apply singleUse_run, singleUse_newClient).
  destruct Hs as (Hn & Hd & Hin & Hlt).
  assert (Hall : NoDup (resolversOf (pending c) ++ resolved c)).
  { apply NoDup_app; trivial. intros r Hr. now apply Hin. }
  assert (Hincl : incl (resolversOf (pending c) ++ resolved c)
                    (seq 0 (promises c))).
  { intros r Hr. apply in_seq. apply in_app_or in Hr.
    destruct Hr as [Hr|Hr]; [apply Hin in Hr|apply Hlt in Hr]; lia. }
  pose proof (NoDup_incl_length Hall Hincl) as Hlen.
  rewrite length_app, length_seq in Hlen.
  unfold resolversOf, resolved in Hlen. now rewrite !length_map in Hlen.
Qed.

End RunProperties.

(** ** Requests from [sendMessage] to their result *)

Section RequestProperties.

Variables Request Result Error : Type.

Local Abbreviation TClient := (Client Request Result Error).
Local Abbreviation TPending := (IPending Request).
Local Abbreviation TEffect := (Effect Request Result Error).
Local Abbreviation TInput := (Input Request).

Implicit Types (c : TClient) (p : TPending) (now : DateTime).

Lemma sendMessage_pending now (req : Request) (o : option number) c :
  exists p3,
    pending (snd (sendMessage now req o c))
    = JsMap.set (Long_toString (requestId (newEntry req o c))) p3
        (JsMap.set (Long_toString (requestId (newEntry req o c)))
           (newEntry req o c) (pending c))
    /\ touched (newEntry req o c) p3
    /\ p3 = snd (sendMessageRequest now (registered req o c)
                   (newEntry req o c)).
Proof.
  rewrite sendMessage_unfold. cbn [snd pending withPending].
  destruct (sendMessageRequest_frame now (registered req o c)
              (newEntry req o c)) as (Hp & _).
  pose proof (sendMessageRequest_touched now (registered req o c)
                (newEntry req o c)) as Ht.
  destruct (sendMessageRequest now (registered req o c) (newEntry req o c))
    as [c3 p3]. cbn [fst snd] in *. exists p3. rewrite Hp.
  repeat split; trivial.
Qed.

Lemma sendMessage_found now (req : Request) (o : option number) c :
  JsMap.get (Long_toString (requestId (newEntry req o c)))
    (pending (snd (sendMessage now req o c)))
  = Some (snd (sendMessageRequest now (registered req o c)
                 (newEntry req o c))).
Proof.
  destruct (sendMessage_pending now req o c) as (p3 & -> & _ & ->).
  apply get_set_same.
Qed.

Lemma sendMessage_resolutions now (req : Request) (o : option number) c :
  resolutions (effects (snd (sendMessage now req o c)))
  = resolutions (effects c).
Proof.
  rewrite sendMessage_unfold. cbn [snd].
  destruct (sendMessageRequest_frame now (registered req o c)
              (newEntry req o c)) as (_ & _ & _ & _ & Hr & _).
  destruct (sendMessageRequest now (registered req o c) (newEntry req o c))
    as [c3 p3]. cbn [fst snd effects withPending] in *. rewrite Hr.
  unfold registered. cbn [effects emit emitAll withPending withRandomDraws
    withPromises]. rewrite resolutions_app. simpl. now rewrite app_nil_r.
Qed.

Lemma step_resolved c (i : TInput) (r : nat) :
  In r (resolved (step c i)) ->
  In r (resolved c) \/ In r (resolversOf (pending c)).
Proof.
  unfold resolved.
  destruct i as [now req o|state|now|e|args|data]; cbn [step].
  - rewrite sendMessage_resolutions. now left.
  - unfold setReadyState. destruct (connection c); now left.
  - unfold onOpen, checkPendingRequests.
    destruct (driveEntries_frame now (pending c) c) as (_ & _ & Hr & _).
    destruct (driveEntries now c (pending c)) as [c1 m1].
    cbn [fst effects withPending] in *. rewrite Hr. now left.
  - rewrite onClose_spec. cbn [effects emitAll withConnection].
    rewrite resolutions_app. simpl. rewrite app_nil_r. now left.
  - unfold onError, emit. cbn [effects emitAll].
    rewrite resolutions_app. simpl. rewrite app_nil_r. now left.
  - assert (Hlog : forall (f : string) (a : list (LogArg Request Result Error)),
              In r (map fst (resolutions (effects (emit (LoggerError f a) c))))
              -> In r (map fst (resolutions (effects c)))
                 \/ In r (resolversOf (pending c))).
    { intros f a. cbn [effects emit emitAll]. rewrite resolutions_app.
      simpl. rewrite app_nil_r. now left. }
    assert (Hres : forall (k : string) p (v : Settled Result Error),
              JsMap.get k (pending c) = Some p ->
              In r (map fst
                      (resolutions
                         (effects
                            (emit (Resolve (resolve p) v)
                               (emit (PendingDelete k)
                                  (withPending (JsMap.delete k (pending c))
                                     c))))))
              -> In r (map fst (resolutions (effects c)))
                 \/ In r (resolversOf (pending c))).
    { intros k p v Hg. cbn [effects emit emitAll withPending].
      rewrite !resolutions_app. cbn [resolutions]. rewrite app_nil_r, map_app.
      intros H. apply in_app_or in H. destruct H as [H|[<-|[]]];
        [now left|right]. now apply get_resolver_in with (k := k). }
    unfold onMessage. destruct data as [bytes|text]; [|now left].
    destruct (decode (_codec c) bytes) as [[k|t|k err|k res|n]|];
      try apply Hlog.
    + destruct (JsMap.get k (pending c)) as [p|]; [|apply Hlog].
      destruct (acknowledged p); [apply Hlog|now left].
    + destruct (JsMap.get k (pending c)) as [p|] eqn:Hg; [|apply Hlog].
      now apply Hres.
    + destruct (JsMap.get k (pending c)) as [p|] eqn:Hg; [|apply Hlog].
      now apply Hres.
Qed.

Lemma step_resolvers c (i : TInput) (r : nat) :
  In r (resolversOf (pending (step c i))) ->
  In r (resolversOf (pending c)) \/ r = promises c.
Proof.
  unfold resolversOf. intros H. apply in_map_iff in H.
  destruct H as ([k p'] & <- & Hin). cbn [snd].
  apply step_entries in Hin.
  destruct Hin as [(p & Hp & Ht)|(now & req & o & _ & _ & Ht)];
    destruct (touched_fields Ht) as (_ & _ & -> & _).
  - left. apply in_map_iff. now exists (k, p).
  - now right.
Qed.

Lemma orphan_step (r : nat) c (i : TInput) :
  orphan r c -> orphan r (step c i).
Proof.
  intros (Hlt & Hreg & Hres). destruct (step_count c i) as [Hp _].
  split; [lia|]. split.
  - intros H. apply step_resolvers in H. destruct H; [tauto|lia].
  - intros H. apply step_resolved in H. tauto.
Qed.

Lemma resolversOf_set_replaces (k : string) (v old : TPending)
    (m : JsMap.t TPending) :
  NoDup (resolversOf m) -> JsMap.get k m = Some old ->
  resolve v <> resolve old ->
  ~ In (resolve old) (resolversOf (JsMap.set k v m)).
Proof.
  induction m as [|[k0 v0] m IH]; simpl; [discriminate|].
  intros Hn Hg Hne. inversion Hn as [|? ? Hx Hm]; subst.
  destruct (String.eqb k k0); simpl.
  - injection Hg as ->. intros [H|H]; [now apply Hne|now apply Hx].
  - intros [H|H]; [|now apply IH].
    apply Hx. rewrite H. now apply get_resolver_in with (k := k).
Qed.

(** X12: request ids are not checked for collisions.  In a run of a new
    client, when [sendMessage] draws an id that is already in the
    registry, the new entry takes the place of the old one (same keys,
    same size), and the resolver of the old request is then held by no
    entry and is never called, whatever happens afterwards: the earlier
    caller's promise stays pending for ever. *)
Theorem X12_colliding_id_orphans_the_earlier_request
    (options : IClientOptions Request Result Error)
    (inputs more : list TInput) now (req : Request) (o : option number)
    (old : TPending) :
  let c := run (newClient options) inputs in
  let key := Long_toString (requestId (newEntry req o c)) in
  JsMap.get key (pending c) = Some old ->
  let c1 := snd (sendMessage now req o c) in
  JsMap.keys (pending c1) = JsMap.keys (pending c)
  /\ (exists p, JsMap.get key (pending c1) = Some p
                /\ resolve p = fst (sendMessage now req o c))
  /\ ~ In (resolve old) (resolversOf (pending c1))
  /\ ~ In (resolve old) (resolved (run c1 more)).
Proof.
  intros c key Hg c1.
  assert (Hs : singleUse c)
    by (apply singleUse_run, singleUse_newClient).
  destruct Hs as (Hn & _ & Hin & _).
  destruct (Hin _ (get_resolver_in key (pending c) Hg)) as [Hlt Hnot].
  destruct (sendMessage_pending now req o c) as (p3 & Hp & Ht & _).
  fold c1 in Hp. fold key in Hp.
  destruct (touched_fields Ht) as (_ & _ & Hr3 & _).
  cbn [resolve newEntry] in Hr3.
  assert (Hkeys : JsMap.keys (pending c1) = JsMap.keys (pending c)).
  { rewrite Hp.
    rewrite (@keys_set_present _ key p3 (newEntry req o c)) by
      apply get_set_same.
    now apply keys_set_present with (v' := old). }
  assert (Hgone : ~ In (resolve old) (resolversOf (pending c1))).
  { rewrite Hp.
    rewrite (@resolversOf_set_same _ key p3 (newEntry req o c));
      [|apply get_set_same|exact Hr3].
    apply resolversOf_set_replaces; trivial. cbn [resolve newEntry]. lia. }
  split; [exact Hkeys|]. split.
  - exists p3. split; [rewrite Hp; apply get_set_same|].
    rewrite sendMessage_unfold. exact Hr3.
  - split; [exact Hgone|].
    assert (Ho : orphan (resolve old) c1).
    { split; [|split; [exact Hgone|]].
      - destruct (step_count c (CallSendMessage now req o)) as [H _].
        cbn [step isCallSendMessage] in H. fold c1 in H. lia.
      - unfold resolved, c1. now rewrite sendMessage_resolutions. }
    pose proof (@run_preserves _ _ _ (fun d => orphan (resolve old) d)
                  (orphan_step (r := resolve old)) more c1 Ho) as (_ & _ & H).
    exact H.
Qed.

(** X14: the promise [sendMessage] returns is the one a result frame
    carrying the request's id settles.  Right after [sendMessage], a
    ResultSuccess or ResultError frame for the id just drawn calls the
    resolver of the returned promise with the frame's outcome, removes
    the entry, and writes nothing. *)
Theorem X14_result_settles_the_returned_promise
    now (req : Request) (o : option number) c (bytes : Uint8Array)
    (m : ServerMessage Result Error) (v : Settled Result Error) :
  let sending := sendMessage now req o c in
  let key := Long_toString (requestId (newEntry req o c)) in
  decode (_codec c) bytes = Some m ->
  outcome m = Some (key, v) ->
  let c2 := onMessage (ArrayBuffer bytes) (snd sending) in
  resolutions (effects c2) = resolutions (effects c) ++ [(fst sending, v)]
  /\ JsMap.get key (pending c2) = None
  /\ sentFrames (effects c2) = sentFrames (effects (snd sending)).
Proof.
  intros sending key Hd Ho c2.
  pose proof (sendMessage_found now req o c) as Hg.
  fold sending in Hg. fold key in Hg.
  assert (Hk : _codec (snd sending) = _codec c)
    by (exact (@codec_step _ _ _ c (CallSendMessage now req o) (_codec c)
                 eq_refl)).
  rewrite <- Hk in Hd.
  unfold c2. rewrite (onMessage_result_found _ _ Hd Ho Hg).
  cbn [effects pending emitAll withPending].
  rewrite resolutions_app, sentFrames_app. cbn [resolutions sentFrames].
  rewrite app_nil_r.
  destruct (sendMessageRequest_frame now (registered req o c)
              (newEntry req o c)) as (_ & _ & _ & _ & Hr & Hres & _).
  split; [|split; [apply get_delete_same|reflexivity]].
  f_equal.
  - unfold sending. apply sendMessage_resolutions.
  - rewrite Hres. unfold sending. now rewrite sendMessage_unfold.
Qed.

(** *** What the dispatcher never does *)

Lemma length_set_present (k : string) (v p : TPending)
    (m : JsMap.t TPending) :
  JsMap.get k m = Some p ->
  List.length (JsMap.set k v m) = List.length m.
Proof.
  intros Hg. pose proof (@keys_set_present _ k v p m Hg) as H.
  apply (f_equal (@List.length _)) in H. unfold JsMap.keys in H.
  now rewrite !length_map in H.
Qed.

Lemma length_delete (k : string) (m : JsMap.t TPending) :
  (List.length (JsMap.delete k m) <= List.length m)%nat.
Proof.
  induction m as [|[k0 v0] m IH]; simpl; [lia|].
  destruct (String.eqb k k0); simpl; lia.
Qed.

(** X8: whatever arrives in a message event (any payload, any frame),
    [onMessage] leaves the connection, the session, the random source
    and the promise counter alone, writes nothing to the transport,
    constructs no transport, and never adds an entry or a key to the
    registry. *)
Theorem X8_onMessage_only_reads_and_settles (data : unknown) c :
  let c' := onMessage data c in
  connection c' = connection c
  /\ session c' = session c
  /\ randomDraws c' = randomDraws c
  /\ promises c' = promises c
  /\ sentFrames (effects c') = sentFrames (effects c)
  /\ countNew (effects c') = countNew (effects c)
  /\ incl (JsMap.keys (pending c')) (JsMap.keys (pending c))
  /\ (List.length (pending c') <= List.length (pending c))%nat.
Proof.
  intros c'.
  destruct (onMessage_shape data c) as (m & es & Hshape & Hn & Hs).
  assert (Hkeys : incl (JsMap.keys (pending c')) (JsMap.keys (pending c))).
  { intros k Hk. unfold JsMap.keys in *. apply in_map_iff in Hk.
    destruct Hk as ([k0 p'] & <- & Hin).
    apply (@step_entries _ _ _ c (FireMessage data)) in Hin.
    destruct Hin as [(p & Hp & _)|(now & req & o & [=] & _)].
    apply in_map_iff. now exists (k0, p). }
  assert (Hlen : (List.length (pending c') <= List.length (pending c))%nat).
  { unfold c', onMessage. destruct data as [bytes|text]; [|lia].
    destruct (decode (_codec c) bytes) as [[k|t|k err|k res|n]|];
      cbn [pending emit emitAll]; try lia.
    - destruct (JsMap.get k (pending c)) as [p|] eqn:Hg;
        cbn [pending emit emitAll]; [|lia].
      destruct (acknowledged p); cbn [pending emit emitAll withPending];
        [lia|]. now rewrite (@length_set_present k _ p (pending c) Hg).
    - destruct (JsMap.get k (pending c)) as [p|];
        cbn [pending emit emitAll withPending]; [apply length_delete|lia].
    - destruct (JsMap.get k (pending c)) as [p|];
        cbn [pending emit emitAll withPending]; [apply length_delete|lia]. }
  unfold c' in *. rewrite Hshape in *.
  cbn [connection session randomDraws promises effects emitAll withPending].
  rewrite sentFrames_app, countNew_app, Hs, Hn, app_nil_r, Nat.add_0_r.
  repeat split; trivial.
Qed.

(** X7: the first Acknowledge frame for a pending entry sets its
    [acknowledged] flag and does nothing else: nothing is logged or
    written, the keys and every other entry stay as they were.  The flag
    is never read by the retry engine: a pass treats the acknowledged
    entry exactly as it would the unacknowledged one, so an acknowledged
    request goes on being re-sent until its result arrives. *)
Theorem X7_acknowledge_sets_the_flag_only
    (bytes : Uint8Array) (k : string) p c now (d : TClient) :
  decode (_codec c) bytes = Some (acknowledgeMessage k) ->
  JsMap.get k (pending c) = Some p ->
  acknowledged p = false ->
  let c' := onMessage (ArrayBuffer bytes) c in
  c' = withPending (JsMap.set k (withAcknowledged true p) (pending c)) c
  /\ effects c' = effects c
  /\ JsMap.get k (pending c') = Some (withAcknowledged true p)
  /\ JsMap.keys (pending c') = JsMap.keys (pending c)
  /\ (forall k', k' <> k ->
        JsMap.get k' (pending c') = JsMap.get k' (pending c))
  /\ sendMessageRequest now d (withAcknowledged true p)
     = (fst (sendMessageRequest now d p),
        withAcknowledged true (snd (sendMessageRequest now d p))).
Proof.
  intros Hd Hg Ha c'.
  assert (Hc : c' = withPending
                      (JsMap.set k (withAcknowledged true p) (pending c)) c).
  { unfold c'. rewrite (onMessage_acknowledge _ _ Hd Hg). now rewrite Ha. }
  rewrite Hc. cbn [pending effects withPending].
  split; [reflexivity|]. split; [reflexivity|].
  split; [apply get_set_same|].
  split; [now apply keys_set_present with (v' := p)|].
  split; [intros k' Hk; now apply get_set_other|].
  rewrite !sendMessageRequest_spec.
  change (due now (withAcknowledged true p)) with (due now p).
  destruct (isConnected d); [destruct (due now p)|]; cbn [fst snd]; trivial.
  f_equal. unfold recordWrite. cbn [sent withAcknowledged].
  now destruct (sent p).
Qed.

(** *** [sendMessage] *)

Lemma isConnected_registered (req : Request) (o : option number) c :
  isConnected (registered req o c) = isConnected c.
Proof. reflexivity. Qed.

(** X9: [sendMessage] on a client that is not connected writes
    nothing.  It registers the request, never sent, under the decimal
    form of the id it drew, with [maxRetryCount] 4 when the option is
    left out, returns a new promise, and makes sure a transport exists:
    one is constructed if, and only if, none is held. *)
Theorem X9_sendMessage_off_line now (req : Request) (o : option number) c :
  isConnected c = false ->
  let entry := newEntry req o c in
  let c1 := snd (sendMessage now req o c) in
  fst (sendMessage now req o c) = promises c
  /\ promises c1 = S (promises c)
  /\ JsMap.get (Long_toString (requestId entry)) (pending c1) = Some entry
  /\ sent entry = None /\ retries entry = [] /\ acknowledged entry = false
  /\ maxRetryCount entry = match o with Some n => n | None => 4 end
  /\ sentFrames (effects c1) = sentFrames (effects c)
  /\ connection c1 <> None
  /\ (countNew (effects c1) + held c = countNew (effects c) + 1)%nat.
Proof.
  intros Hc entry c1.
  assert (Hpass : sendMessageRequest now (registered req o c) entry
                  = (connect (registered req o c), entry)).
  { rewrite sendMessageRequest_spec, isConnected_registered, Hc.
    reflexivity. }
  assert (H1 : c1 = withPending
                      (JsMap.set (Long_toString (requestId entry)) entry
                         (pending (connect (registered req o c))))
                      (connect (registered req o c))).
  { unfold c1. rewrite sendMessage_unfold. cbn [snd]. fold entry.
    now rewrite Hpass. }
  split; [now rewrite sendMessage_unfold|].
  rewrite H1. cbn [promises pending effects connection withPending].
  split; [unfold connect; now destruct (connection (registered req o c))|].
  split; [apply get_set_same|].
  do 4 (split; [reflexivity|]).
  assert (Hfacts : forall d : TClient,
            sentFrames (effects (connect d)) = sentFrames (effects d)
            /\ connection (connect d) <> None
            /\ (countNew (effects (connect d)) + held d
                = countNew (effects d) + 1)%nat).
  { intros d. unfold connect, held. destruct (connection d) eqn:E.
    - rewrite E. split; [reflexivity|split; [discriminate|lia]].
    - cbn [effects connection emit emitAll withConnection].
      rewrite sentFrames_app, countNew_app. simpl. rewrite app_nil_r.
      unfold countNew at 2. simpl.
      split; [reflexivity|split; [discriminate|lia]]. }
  destruct (Hfacts (registered req o c)) as (Hf & Hconn & Hnew).
  change (held (registered req o c)) with (held c) in Hnew.
  assert (Hreg : sentFrames (effects (registered req o c))
                 = sentFrames (effects c)
                 /\ countNew (effects (registered req o c))
                    = countNew (effects c)).
  { unfold registered. cbn [effects emit emitAll withPending withRandomDraws
      withPromises]. rewrite sentFrames_app, countNew_app. simpl.
    rewrite app_nil_r. unfold countNew at 2. simpl. split; [reflexivity|lia]. }
  destruct Hreg as [Hr1 Hr2].
  split; [congruence|]. split; [exact Hconn|lia].
Qed.

(** X10: [sendMessage] on a connected client writes exactly one frame at
    once: the encoding of the request under the id it drew and under the
    session, which is created on the spot if there was none.  The entry
    is registered with that send recorded, expiring 10 s later, and no
    transport is constructed. *)
Theorem X10_sendMessage_on_line now (req : Request) (o : option number) c :
  isConnected c = true ->
  let entry := newEntry req o c in
  let before := registered req o c in
  let s := fst (ensureSession before) in
  let c1 := snd (sendMessage now req o c) in
  sentFrames (effects c1)
  = sentFrames (effects c)
    ++ [encode (_codec c)
          {| mrRequestId := Long_toString (requestId entry);
             mrRequest := req;
             mrSessionId := Long_toString (id s) |}]
  /\ session c1 = Some s
  /\ (forall s0, session c = Some s0 -> s = s0)
  /\ JsMap.get (Long_toString (requestId entry)) (pending c1)
     = Some (withSent (Some {| date := now; expiresAt := now + 10000 |})
               entry)
  /\ countNew (effects c1) = countNew (effects c)
  /\ connection c1 = connection c.
Proof.
  intros Hc entry before s c1.
  assert (Hpass : sendMessageRequest now before entry
                  = (emit (WebSocketSend (frameOf before s entry))
                       (snd (ensureSession before)),
                     recordWrite now entry)).
  { rewrite sendMessageRequest_spec. unfold before.
    rewrite isConnected_registered, Hc. reflexivity. }
  assert (H1 : c1 = withPending
                      (JsMap.set (Long_toString (requestId entry))
                         (recordWrite now entry)
                         (pending (emit (WebSocketSend (frameOf before s entry))
                                     (snd (ensureSession before)))))
                      (emit (WebSocketSend (frameOf before s entry))
                         (snd (ensureSession before)))).
  { unfold c1. rewrite sendMessage_unfold. cbn [snd]. fold entry before.
    now rewrite Hpass. }
  destruct (ensureSession_connection before)
    as (Hconn & _ & _ & _ & _ & He & Hs).
  fold s in Hs.
  assert (Heff : effects c1
                 = (effects c
                    ++ [PendingSet (Long_toString (requestId entry))])
                   ++ [WebSocketSend (frameOf before s entry)]).
  { rewrite H1. cbn [effects emit emitAll withPending]. now rewrite He. }
  split.
  { rewrite Heff, !sentFrames_app. simpl. now rewrite app_nil_r. }
  split; [rewrite H1; exact Hs|]. split.
  { intros s0 H0. unfold s.
    now rewrite (@ensureSession_present _ _ _ before s0 H0). }
  split.
  { rewrite H1. cbn [pending withPending]. rewrite get_set_same.
    reflexivity. }
  split.
  { rewrite Heff, !countNew_app. unfold countNew at 2 3. simpl. lia. }
  rewrite H1. cbn [connection emit emitAll withPending]. exact Hconn.
Qed.

(** *** Handlers while the transport is not open *)

Lemma sendMessage_not_connected now (req : Request) (o : option number) c :
  isConnected c = false ->
  snd (sendMessage now req o c)
  = withPending
      (JsMap.set (Long_toString (requestId (newEntry req o c)))
         (newEntry req o c) (pending (connect (registered req o c))))
      (connect (registered req o c)).
Proof.
  intros Hc. rewrite sendMessage_unfold. cbn [snd].
  rewrite sendMessageRequest_spec, isConnected_registered, Hc. reflexivity.
Qed.

Lemma driveEntries_waiting now (ws : IWebSocket) (m : JsMap.t TPending) c :
  isConnected c = false -> connection c = Some ws ->
  driveEntries now c m = (c, m).
Proof.
  intros Hc Hws. induction m as [|[k p] m IH]; [reflexivity|].
  cbn [driveEntries]. rewrite sendMessageRequest_spec, Hc.
  rewrite (connect_present c Hws), IH. reflexivity.
Qed.

(** X13: while the instance held is not open, nothing is written.  An
    [open] event handled in that state changes nothing at all, and no
    handler ([sendMessage], [open], [close], [error], [message]) writes
    a frame. *)
Theorem X13_nothing_written_while_not_open now c (ws : IWebSocket)
    (i : TInput) :
  isConnected c = false ->
  connection c = Some ws ->
  isSetReadyState i = false ->
  onOpen now c = c
  /\ sentFrames (effects (step c i)) = sentFrames (effects c).
Proof.
  intros Hc Hws Hi.
  assert (Hopen : forall t, onOpen t c = c).
  { intros t. unfold onOpen, checkPendingRequests.
    rewrite (@driveEntries_waiting t ws (pending c) c Hc Hws). now destruct c. }
  split; [apply Hopen|].
  destruct i as [t req o|state|t|e|args|data]; cbn [step];
    try discriminate.
  - rewrite (@sendMessage_not_connected t req o c Hc).
    cbn [effects withPending].
    rewrite (@connect_present _ _ _ (registered req o c) ws Hws).
    unfold registered. cbn [effects emit emitAll withPending withRandomDraws
      withPromises]. rewrite sentFrames_app. simpl. now rewrite app_nil_r.
  - now rewrite Hopen.
  - rewrite onClose_spec. cbn [effects emitAll withConnection].
    rewrite sentFrames_app. simpl. now rewrite app_nil_r.
  - unfold onError, emit. cbn [effects emitAll].
    rewrite sentFrames_app. simpl. now rewrite app_nil_r.
  - destruct (onMessage_shape data c) as (m & es & -> & _ & Hs).
    cbn [effects emitAll withPending].
    now rewrite sentFrames_app, Hs, app_nil_r.
Qed.


(** X11: the first request of a new client.  The call to [sendMessage]
    constructs the transport and writes nothing; once the transport is
    open, the [open] event writes exactly one frame, the request under
    the first id drawn and a session whose id is the second id drawn,
    and records that send in the entry. *)
Theorem X11_first_request_goes_out_on_open
    (options : IClientOptions Request Result Error) (t t' : DateTime)
    (req : Request) (o : option number) :
  let rid := Long_fromBytesLE (getRandomValues options 0) in
  let sid := Long_fromBytesLE (getRandomValues options 1) in
  let called := run (newClient options) [CallSendMessage t req o] in
  let opened :=
    run called [SetReadyState (OPEN (WebSocket options)); FireOpen t'] in
  effects called
  = [PendingSet (Long_toString rid); WebSocketNew (url options)]
  /\ sentFrames (effects opened)
     = [encode (codec options)
          {| mrRequestId := Long_toString rid; mrRequest := req;
             mrSessionId := Long_toString sid |}]
  /\ session opened = Some {| id := sid |}
  /\ pending opened
     = [(Long_toString rid,
         withSent (Some {| date := t'; expiresAt := t' + 10000 |})
           (newEntry req o (newClient options)))].
Proof.
  intros rid sid called opened.
  assert (Hcalled : called
            = withPending
                [(Long_toString rid, newEntry req o (newClient options))]
                (connect (registered req o (newClient options)))).
  { unfold called. cbn [run fold_left step].
    rewrite sendMessage_not_connected by reflexivity.
    cbn -[Long_toString Long_fromBytesLE]. fold rid.
    now rewrite String.eqb_refl. }
  assert (Hready : isConnected
                     (setReadyState (OPEN (WebSocket options)) called) = true).
  { rewrite Hcalled. unfold isConnected. simpl. apply Z.eqb_refl. }
  split; [now rewrite Hcalled|].
  unfold opened. cbn [run fold_left step].
  rewrite (@onOpen_connected _ _ _ t' _ Hready).
  rewrite Hcalled. cbn -[Long_toString Long_fromBytesLE].
  fold rid sid. repeat split.
Qed.

End RequestProperties.

(** ** The chain of the logging facade *)

Section ChainProperties.

Variables Request Result Error objectId Converted : Type.
Variable convert : unknown -> Converted.
Variable AddPageLine : list Converted -> objectId -> LineType -> Request.
Variable isAddPageLineResult : Settled Result Error -> bool.

Local Abbreviation TLogger := (LoggerNetwork Request Result Error objectId).
Local Abbreviation TClient := (Client Request Result Error).

Implicit Types (l : TLogger) (revision : Revision) (now : DateTime).

Lemma pump_inFlight revision now (page : objectId) l :
  pageId l = Some (Some page) -> awaiting l = None ->
  let l' := pump convert AddPageLine revision now l in
  inFlight convert AddPageLine page l'
  /\ chain l' = chain l
  /\ console l' = console l
  /\ promises (client l')
     = (promises (client l)
        + match chain l with [] => 0 | _ :: _ => 1 end)%nat.
Proof.
  intros Hpage Hawait. unfold pump, inFlight. rewrite Hpage, Hawait.
  destruct (chain l) as [|[lineType args] rest] eqn:Hchain.
  - cbn [runChain client pageId chain awaiting console].
    repeat split; trivial; lia.
  - cbn [runChain].
    pose proof (sendMessage_found now
                  (AddPageLine (map convert args) page lineType) None
                  (client l)) as Hfound.
    pose proof (sendMessageRequest_touched now
                  (registered (AddPageLine (map convert args) page lineType)
                     None (client l))
                  (newEntry (AddPageLine (map convert args) page lineType)
                     None (client l))) as Ht.
    destruct (step_count (client l)
                (CallSendMessage now
                   (AddPageLine (map convert args) page lineType) None))
      as [Hprom _].
    cbn [step isCallSendMessage] in Hprom.
    pose proof (sendMessage_unfold now
                  (AddPageLine (map convert args) page lineType) None
                  (client l)) as Hhandle.
    apply (f_equal fst) in Hhandle. cbn [fst] in Hhandle.
    destruct (sendMessage now (AddPageLine (map convert args) page lineType)
                None (client l)) as [handle c1].
    cbn [fst snd client pageId chain awaiting console] in *.
    destruct (touched_fields Ht) as (_ & Hreq & Hres & _).
    cbn [request resolve newEntry] in Hreq, Hres.
    split; [|repeat split; trivial; lia].
    split; [reflexivity|].
    eexists. split; [|split; [exact Hreq|split]].
    + apply get_In in Hfound. unfold JsMap.values.
      apply in_map_iff. eexists. split; [|exact Hfound]. reflexivity.
    + now rewrite Hres, Hhandle.
    + rewrite Hres. lia.
Qed.

Lemma resume_inFlight revision now (page : objectId)
    (value : Settled Result Error) l :
  inFlight convert AddPageLine page l ->
  let l' := resume convert AddPageLine isAddPageLineResult revision now
              value l in
  inFlight convert AddPageLine page l'
  /\ chain l' = tl (chain l)
  /\ console l'
     = console l
       ++ match chain l with
          | [] => []
          | _ :: _ => afterResult isAddPageLineResult revision value
          end
  /\ promises (client l')
     = (promises (client l)
        + match chain l with _ :: _ :: _ => 1 | _ => 0 end)%nat.
Proof.
  intros [Hpage Hin]. unfold resume.
  destruct (chain l) as [|[lineType args] rest] eqn:Hchain.
  - rewrite Hin. cbn [tl]. rewrite app_nil_r.
    split; [unfold inFlight; now rewrite Hchain|].
    split; [exact Hchain|]. split; [reflexivity|lia].
  - destruct Hin as (e & _ & _ & -> & _). cbn [tl].
    match goal with
    | |- context [pump _ _ _ _ ?st] =>
        destruct (@pump_inFlight revision now page st Hpage eq_refl)
          as (H1 & H2 & H3 & H4)
    end.
    split; [exact H1|]. split; [exact H2|]. split; [exact H3|].
    etransitivity; [exact H4|]. cbn [client chain]. now destruct rest.
Qed.

Lemma settle_inFlight revision (page : objectId)
    (events : list (DateTime * Settled Result Error)) : forall l,
  inFlight convert AddPageLine page l ->
  let l' := settle convert AddPageLine isAddPageLineResult revision
              events l in
  inFlight convert AddPageLine page l'
  /\ chain l' = skipn (List.length events) (chain l)
  /\ console l'
     = console l
       ++ List.concat
            (map (fun event => afterResult isAddPageLineResult revision
                                 (snd event))
               (firstn (List.length (chain l)) events))
  /\ promises (client l')
     = (promises (client l)
        + Nat.min (List.length events) (pred (List.length (chain l))))%nat.
Proof.
  induction events as [|[t value] rest IH]; intros l Hl.
  - cbn [settle fold_left List.length skipn]. rewrite firstn_nil.
    split; [exact Hl|]. split; [reflexivity|].
    split; [simpl; now rewrite app_nil_r|]. simpl. lia.
  - change (settle convert AddPageLine isAddPageLineResult revision
              ((t, value) :: rest) l)
      with (settle convert AddPageLine isAddPageLineResult revision rest
              (resume convert AddPageLine isAddPageLineResult revision t
                 value l)).
    destruct (@resume_inFlight revision t page value l Hl)
      as (H1 & H2 & H3 & H4).
    destruct (IH _ H1) as (I1 & I2 & I3 & I4).
    split; [exact I1|]. rewrite I2, I3, I4, H2, H3, H4.
    destruct (chain l) as [|j [|j' tail]]; cbn [tl List.length pred].
    + rewrite !skipn_nil, !firstn_O. simpl. rewrite !app_nil_r.
      split; [reflexivity|]. split; [reflexivity|lia].
    + rewrite skipn_nil. cbn [skipn firstn map List.concat snd].
      rewrite skipn_nil, <- app_assoc.
      split; [reflexivity|]. split; [reflexivity|lia].
    + cbn [skipn firstn map List.concat snd]. rewrite <- app_assoc.
      split; [reflexivity|]. split; [reflexivity|lia].
Qed.


(** X17: with a page id, the lines go to the client in the order they
    were stored, one at a time.  After the chain has started and [k]
    awaited promises have settled, the lines left are the stored lines
    without the first [k], [min (k + 1) n] of the [n] lines have been
    handed to [sendMessage], and the promise awaited is that of the
    request built from the oldest line left, which is in the client's
    registry; the first revision prints one line per settled result, the
    second nothing. *)
Theorem X17_lines_are_sent_in_order revision now (page : objectId)
    (events : list (DateTime * Settled Result Error)) l :
  pageId l = Some (Some page) ->
  awaiting l = None ->
  let l' := settle convert AddPageLine isAddPageLineResult revision events
              (pump convert AddPageLine revision now l) in
  chain l' = skipn (List.length events) (chain l)
  /\ promises (client l')
     = (promises (client l)
        + Nat.min (S (List.length events)) (List.length (chain l)))%nat
  /\ console l'
     = console l
       ++ List.concat
            (map (fun event => afterResult isAddPageLineResult revision
                                 (snd event))
               (firstn (List.length (chain l)) events))
  /\ match chain l' with
     | [] => awaiting l' = None
     | (lineType, args) :: _ =>
         exists e : IPending Request,
           In e (JsMap.values (pending (client l')))
           /\ request e = AddPageLine (map convert args) page lineType
           /\ awaiting l' = Some (resolve e)
     end.
Proof.
  intros Hpage Hawait l'.
  destruct (@pump_inFlight revision now page l Hpage Hawait)
    as (P1 & P2 & P3 & P4).
  destruct (@settle_inFlight revision page events _ P1) as (S1 & S2 & S3 & S4).
  fold l' in S1, S2, S3, S4. rewrite P2 in S2, S3, S4. rewrite P3 in S3.
  split; [exact S2|]. split.
  - rewrite S4, P4. destruct (chain l) as [|j tail]; cbn [List.length pred];
      lia.
  - split; [exact S3|]. destruct S1 as [_ S1].
    destruct (chain l') as [|[lineType args] tail]; [exact S1|].
    destruct S1 as (e & He1 & He2 & He3 & _). now exists e.
Qed.

End ChainProperties.

(** ** The further properties on the sample client *)

Lemma X2_toString_injective_witness :
  Long_fromBytesLE (stuck 0) = 5%N.
Proof.
  destruct (X2_toString_injective (Long_fromBytesLE (stuck 0)) 5%N) as [_ H].
  apply H. evaluated.
Defined.

Lemma X3_registry_keyed_by_id_witness :
  "1"%string = Long_toString (requestId sentEntry)
  /\ (requestId sentEntry < 2 ^ 64)%N
  /\ JsMap.get (Long_toString (requestId sentEntry)) (pending oneSent)
     = Some sentEntry.
Proof.
  destruct (@X3_registry_keyed_by_id string string string options
              [CallSendMessage 0 "line"%string None; SetReadyState 1;
               FireOpen 0]) as [_ H].
  exact (H "1"%string sentEntry ltac:(vm_compute; left; reflexivity)).
Defined.

Lemma X4_session_never_replaced_witness :
  session
    (run oneSent
       [FireClose closeEvent; FireError []; SetReadyState 1; FireOpen 10000;
        CallSendMessage 10001 "other"%string None; FireMessage (frame "S1")])
  = Some {| id := 2%N |}.
Proof.
  apply (@X4_session_never_replaced string string string {| id := 2%N |}
           oneSent). evaluated.
Defined.

Lemma X5_transport_held_and_wired_witness :
  connection (run oneSent [FireClose closeEvent; FireError []]) <> None
  /\ binaryType openSocket = "arraybuffer"%string.
Proof.
  destruct (@X5_transport_held_and_wired string string string options
              oneSent
              [CallSendMessage 0 "line"%string None; SetReadyState 1;
               FireOpen 0]) as [_ Hw].
  destruct (@X5_transport_held_and_wired string string string options
              oneSent [FireClose closeEvent; FireError []]) as [Hh _].
  split; [apply Hh; vm_compute; discriminate|].
  exact (proj1 (Hw openSocket ltac:(evaluated))).
Defined.


Lemma X7_acknowledge_sets_the_flag_only_witness :
  effects (onMessage (frame "A1") oneSent) = effects oneSent
  /\ JsMap.get "1" (pending (onMessage (frame "A1") oneSent))
     = Some (withAcknowledged true sentEntry)
  /\ sentFrames
       (effects
          (fst (sendMessageRequest 10000 oneSent
                  (withAcknowledged true sentEntry))))
     = sentFrames
         (effects (fst (sendMessageRequest 10000 oneSent sentEntry))).
Proof.
  destruct (@X7_acknowledge_sets_the_flag_only string string string
              (list_byte_of_string "A1") "1" sentEntry oneSent 10000 oneSent
              ltac:(evaluated) ltac:(evaluated) ltac:(evaluated))
    as (_ & He & Hg & _ & _ & Hpass).
  apply (f_equal (fun r => sentFrames (effects (fst r)))) in Hpass.
  vm_compute in He, Hg, Hpass |- *.
  split; [exact He|]. split; [exact Hg|exact Hpass].
Defined.

Lemma X9_sendMessage_off_line_witness :
  sentFrames (effects (snd (sendMessage 0 "line"%string None fresh))) = []
  /\ connection (snd (sendMessage 0 "line"%string None fresh)) <> None
  /\ maxRetryCount (newEntry "line"%string None fresh) = 4.
Proof.
  destruct (@X9_sendMessage_off_line string string string 0 "line"%string
              None fresh ltac:(evaluated))
    as (_ & _ & _ & _ & _ & _ & Hm & Hf & Hc & _).
  split; [exact Hf|]. split; [exact Hc|exact Hm].
Defined.

Lemma X10_sendMessage_on_line_witness :
  sentFrames (effects (snd (sendMessage 1 "other"%string None oneSent)))
  = [lineFrame;
     toyEncode {| mrRequestId := "3"; mrRequest := "other"%string;
                  mrSessionId := "2" |}]
  /\ countNew (effects (snd (sendMessage 1 "other"%string None oneSent)))
     = countNew (effects oneSent).
Proof.
  destruct (@X10_sendMessage_on_line string string string 1 "other"%string
              None oneSent ltac:(evaluated))
    as (Hf & _ & _ & _ & Hn & _).
  vm_compute in Hf, Hn |- *. split; [exact Hf|exact Hn].
Defined.

Lemma X12_colliding_id_orphans_the_earlier_request_witness :
  JsMap.get "5" (pending firstOfTwo) = Some firstEntry
  /\ JsMap.keys (pending (snd (sendMessage 1 "second"%string None firstOfTwo)))
     = ["5"%string]
  /\ ~ In 0%nat
       (resolved
          (run (snd (sendMessage 1 "second"%string None firstOfTwo))
             [SetReadyState 1; FireOpen 2; FireMessage (frame "S5");
              FireMessage (frame "S5")])).
Proof.
  assert (Hg : JsMap.get "5" (pending firstOfTwo) = Some firstEntry)
    by evaluated.
  destruct (@X12_colliding_id_orphans_the_earlier_request string string
              string stuckOptions
              [CallSendMessage 0 "first"%string None]
              [SetReadyState 1; FireOpen 2; FireMessage (frame "S5");
               FireMessage (frame "S5")]
              1 "second"%string None firstEntry ltac:(evaluated))
    as (Hk & _ & _ & Hnever).
  split; [exact Hg|]. split; [|exact Hnever].
  vm_compute in Hk |- *. exact Hk.
Defined.

Lemma X13_nothing_written_while_not_open_witness :
  onOpen 5 queued = queued
  /\ sentFrames (effects (step queued (CallSendMessage 6 "other"%string None)))
     = sentFrames (effects queued).
Proof.
  exact (@X13_nothing_written_while_not_open string string string 5 queued
           {| readyState := 0; binaryType := "arraybuffer";
              listeners := ["close"; "error"; "open"; "message"]%string |}
           (CallSendMessage 6 "other"%string None)
           ltac:(evaluated) ltac:(evaluated) ltac:(evaluated)).
Defined.

Lemma X14_result_settles_the_returned_promise_witness :
  resolutions
    (effects
       (onMessage (frame "S3")
          (snd (sendMessage 1 "other"%string None oneSent))))
  = [(fst (sendMessage 1 "other"%string None oneSent),
      SettledResult "done"%string)].
Proof.
  destruct (@X14_result_settles_the_returned_promise string string string
              1 "other"%string None oneSent (list_byte_of_string "S3")
              (messageResultSuccess "3" "done"%string)
              (SettledResult "done"%string)
              ltac:(evaluated) ltac:(evaluated)) as (H & _).
  vm_compute in H |- *. exact H.
Defined.



Lemma X17_lines_are_sent_in_order_witness :
  chain
    (settle describe addPageLine (fun _ => true) Reporting
       [(1, SettledResult "done"%string); (2, SettledError "refused"%string)]
       (pump describe addPageLine Reporting 0 paged))
  = [(lineTypeLog, [NotArrayBuffer "third"])]
  /\ promises
       (client
          (settle describe addPageLine (fun _ => true) Reporting
             [(1, SettledResult "done"%string);
              (2, SettledError "refused"%string)]
             (pump describe addPageLine Reporting 0 paged)))
     = 4%nat.
Proof.
  destruct (@X17_lines_are_sent_in_order string string string string string
              describe addPageLine (fun _ => true) Reporting 0 "page"%string
              [(1, SettledResult "done"%string);
               (2, SettledError "refused"%string)]
              paged ltac:(evaluated) ltac:(evaluated))
    as (Hc & Hp & _).
  vm_compute in Hc, Hp |- *. split; [exact Hc|exact Hp].
Defined.

Lemma X18_every_frame_under_the_session_witness :
  exists (rid req : string),
    lineFrame
    = toyEncode {| mrRequestId := rid; mrRequest := req;
                   mrSessionId := "2" |}.
Proof.
  pose proof (@X18_every_frame_under_the_session string string string options
                [CallSendMessage 0 "line"%string None; SetReadyState 1;
                 FireOpen 0]) as H.
  cbv zeta in H.
  assert (Hs : session
                 (run (newClient options)
                    [CallSendMessage 0 "line"%string None; SetReadyState 1;
                     FireOpen 0]) = Some {| id := 2%N |}) by evaluated.
  rewrite Hs in H.
  apply (H lineFrame). vm_compute. left. reflexivity.
Defined.
